(** * Artifact (art): a shallow embedding of the version-control core

    The development follows the JavaScript sources of the repository:

    - [workflow/index.js] (v0.3.5): [getStagedChanges], [status], [add],
      [commit];
    - the Caches module (v0.3.5): [getPaginatedChanges],
      [savePaginatedChanges], [stash] with [pop], [reset], [rm];
    - the Branching module (v0.3.3): [branch], [checkout], [merge];
    - [utils/getStateByHash] (v0.3.3);
    - [utils/constants.js]: [MAX_PART_SIZE].

    JavaScript strings are modelled by [string]; every operation the
    sources use on them ([length], indexing, [slice], template
    concatenation, [startsWith]) is spelled out below.  Numbers that the
    code uses as positions and sizes are integers and are modelled in [Z].
    Objects used as dictionaries keep their insertion order and are
    association lists; directories of the metadata folder and the working
    tree are finite maps from names to contents.

    The working tree is the map from the paths of its files to their
    contents; its directories are the paths above its files.  The calls
    of [rm], [merge] and [stash] that write to it are modelled with the
    exceptions of the file system (a file operation on a directory, a
    path that leads through a file).  The writes of [checkout] and the
    lookups of [add] are modelled where they succeed; what is proved of
    them is stated for writable and ordinary paths ([writable],
    [ordinary_path]). *)

From Stdlib Require Import ZArith String Ascii List Lia Bool.
From Stdlib Require Import DecimalString Decimal DecimalNat DecimalZ.
From stdpp Require Import base option list gmap strings sorting.

Local Open Scope Z_scope.

(** ** JavaScript string primitives *)

Module Js.

(** [s.length] *)
Definition length (s : string) : Z := Z.of_nat (String.length s).

(** [s[i]]: a one-character string, or [undefined] out of range. *)
Definition at_ (s : string) (i : Z) : option ascii :=
  if i <? 0 then None else String.get (Z.to_nat i) s.

(** Relative index resolution of [String.prototype.slice]. *)
Definition clamp (len i : Z) : Z :=
  if i <? 0 then Z.max (len + i) 0 else Z.min i len.

(** [s.slice(a, b)] *)
Definition slice (s : string) (a b : Z) : string :=
  let len := length s in
  let from := clamp len a in
  let to := clamp len b in
  String.substring (Z.to_nat from) (Z.to_nat (Z.max (to - from) 0)) s.

(** [s.slice(a)] *)
Definition slice_from (s : string) (a : Z) : string :=
  slice s a (length s).

(** [x === y] on values that are a character or [undefined]. *)
Definition strict_eq (x y : option ascii) : bool := bool_decide (x = y).

(** [s.startsWith(p)] *)
Definition startsWith (s p : string) : bool := String.prefix p s.

(** [!s] for a string: only the empty string is falsy. *)
Definition falsy (s : string) : bool :=
  match s with EmptyString => true | String _ _ => false end.

(** [!x] for a value that is a string, [null] or [undefined]. *)
Definition falsy_opt (x : option string) : bool :=
  match x with None => true | Some s => falsy s end.

(** [x || ''] *)
Definition or_empty (x : option string) : string :=
  match x with
  | None => EmptyString
  | Some s => if falsy s then EmptyString else s
  end.

End Js.

(** ** Change entries (spec section 3) *)

(** One edit of an [Ops] change.  [add] stores the removed text in the
    [content] field of a delete as well. *)
Inductive operation : Type :=
  | OpDelete (position length : Z) (content : string)
  | OpInsert (position : Z) (content : string).

Inductive change : Type :=
  | CreateFile (content : string)
  | DeleteFile
  | Ops (operations : list operation).

Global Instance operation_eq_dec : EqDecision operation.
Proof. solve_decision. Defined.

Global Instance change_eq_dec : EqDecision change.
Proof. solve_decision. Defined.

(** ** The delta engine ([add], workflow/index.js lines 216-256) *)

Module Delta.

(** Guard of the first [while]:
    [start < previous.length && start < current.length &&
     previous[start] === current[start]]. *)
Definition prefix_guard (previousContent currentContent : string) (start : Z) : bool :=
  (start <? Js.length previousContent)
  && (start <? Js.length currentContent)
  && Js.strict_eq (Js.at_ previousContent start) (Js.at_ currentContent start).

(** The first [while] loop, [start++] while the guard holds. *)
Fixpoint scan_prefix (fuel : nat) (previousContent currentContent : string)
    (start : Z) : Z :=
  match fuel with
  | O => start
  | S fuel' =>
      if prefix_guard previousContent currentContent start
      then scan_prefix fuel' previousContent currentContent (start + 1)
      else start
  end.

(** Guard of the second [while]:
    [oldEnd >= start && newEnd >= start &&
     previous[oldEnd] === current[newEnd]]. *)
Definition suffix_guard (previousContent currentContent : string)
    (start oldEnd newEnd : Z) : bool :=
  (oldEnd >=? start) && (newEnd >=? start)
  && Js.strict_eq (Js.at_ previousContent oldEnd) (Js.at_ currentContent newEnd).

(** The second [while] loop, [oldEnd--; newEnd--] while the guard holds. *)
Fixpoint scan_suffix (fuel : nat) (previousContent currentContent : string)
    (start oldEnd newEnd : Z) : Z * Z :=
  match fuel with
  | O => (oldEnd, newEnd)
  | S fuel' =>
      if suffix_guard previousContent currentContent start oldEnd newEnd
      then scan_suffix fuel' previousContent currentContent start
             (oldEnd - 1) (newEnd - 1)
      else (oldEnd, newEnd)
  end.

(** Both loops run at most [previous.length] times; that many steps of
    fuel are given (see [scan_prefix_exit] and [scan_suffix_exit]). *)
Definition start_of (previousContent currentContent : string) : Z :=
  scan_prefix (String.length previousContent) previousContent currentContent 0.

Definition ends_of (previousContent currentContent : string) : Z * Z :=
  scan_suffix (String.length previousContent) previousContent currentContent
    (start_of previousContent currentContent)
    (Js.length previousContent - 1) (Js.length currentContent - 1).

(** The body of the [else if (currentContent !== previousContent)]
    branch: the list [operations]. *)
Definition delta (previousContent currentContent : string) : list operation :=
  let start := start_of previousContent currentContent in
  let '(oldEnd, newEnd) := ends_of previousContent currentContent in
  let operations := [] in
  let deletionLength := oldEnd - start + 1 in
  let operations :=
    if deletionLength >? 0
    then operations ++
           [OpDelete start deletionLength
              (Js.slice previousContent start (oldEnd + 1))]
    else operations in
  let insertionContent := Js.slice currentContent start (newEnd + 1) in
  let operations :=
    if Js.length insertionContent >? 0
    then operations ++ [OpInsert start insertionContent]
    else operations in
  operations.

End Delta.

(** ** Replaying operations ([getStateByHash], lines 118-124) *)

Module Replay.

Definition apply_operation (currentContent : string) (op : operation) : string :=
  match op with
  | OpInsert position content =>
      Js.slice currentContent 0 position
      +:+ content
      +:+ Js.slice_from currentContent position
  | OpDelete position length _ =>
      Js.slice currentContent 0 position
      +:+ Js.slice_from currentContent (position + length)
  end.

(** [for (const operation of changeSet) ...] *)
Definition apply_operations (changeSet : list operation) (currentContent : string)
    : string :=
  fold_left apply_operation changeSet currentContent.

End Replay.

(** ** Objects used as dictionaries

    [Object.entries], [Object.keys], [for ... in] and [Object.assign]
    enumerate string keys in insertion order; assigning to an existing key
    keeps its place.  (Keys that are canonical array indices would be
    enumerated first; file paths, the only keys used here, are taken not to
    be of that form.) *)

Module Obj.

Definition t (V : Type) : Type := list (string * V).

(** [o[k]], [undefined] when absent *)
Fixpoint get {V} (k : string) (o : t V) : option V :=
  match o with
  | [] => None
  | (k', v) :: rest => if decide (k' = k) then Some v else get k rest
  end.

(** [o[k] = v] *)
Fixpoint set {V} (k : string) (v : V) (o : t V) : t V :=
  match o with
  | [] => [(k, v)]
  | (k', v') :: rest =>
      if decide (k' = k) then (k', v) :: rest else (k', v') :: set k v rest
  end.

(** [delete o[k]] *)
Fixpoint remove {V} (k : string) (o : t V) : t V :=
  match o with
  | [] => []
  | (k', v') :: rest =>
      if decide (k' = k) then remove k rest else (k', v') :: remove k rest
  end.

(** [Object.keys(o)] *)
Definition keys {V} (o : t V) : list string := map fst o.

(** [Object.assign(target, source)] *)
Definition assign {V} (target source : t V) : t V :=
  fold_left (fun acc kv => set (fst kv) (snd kv) acc) source target.

(** [Object.keys(o).length === 0] *)
Definition is_empty {V} (o : t V) : bool :=
  match o with [] => true | _ => false end.

End Obj.

(** [new Set(list)]: the distinct elements in order of first insertion. *)
Definition js_set (l : list string) : list string :=
  fold_left (fun acc x => if decide (x ∈ acc) then acc else acc ++ [x]) l [].

(** ** JSON serialization ([JSON.stringify]) *)

Module Json.

#[warnings="-register-all"]
Inductive value : Type :=
  | Null
  | Number (n : Z)
  | Str (s : string)
  | Array (items : list value)
  | Object (props : list (string * value)).

Definition dquote : string := String "034"%char EmptyString.
Definition backslash : string := String "092"%char EmptyString.
Definition newline : string := String "010"%char EmptyString.

Definition hex_digit (n : N) : string :=
  String (ascii_of_N (if (n <? 10)%N then 48 + n else 87 + n)%N) EmptyString.

(** One code unit of [QuoteJSONString]. *)
Definition quote_char (c : ascii) : string :=
  let n := N_of_ascii c in
  if (n =? 8)%N then backslash +:+ "b"
  else if (n =? 9)%N then backslash +:+ "t"
  else if (n =? 10)%N then backslash +:+ "n"
  else if (n =? 12)%N then backslash +:+ "f"
  else if (n =? 13)%N then backslash +:+ "r"
  else if (n =? 34)%N then backslash +:+ dquote
  else if (n =? 92)%N then backslash +:+ backslash
  else if (n <? 32)%N
    then backslash +:+ "u00" +:+ hex_digit (n / 16) +:+ hex_digit (n mod 16)
  else String c EmptyString.

Fixpoint quote_body (s : string) : string :=
  match s with
  | EmptyString => EmptyString
  | String c rest => quote_char c +:+ quote_body rest
  end.

Definition quote (s : string) : string := dquote +:+ quote_body s +:+ dquote.

(** Decimal rendering of an integer number. *)
Definition of_Z (n : Z) : string := NilZero.string_of_int (Z.to_int n).
Definition of_nat (n : nat) : string := NilZero.string_of_uint (Nat.to_uint n).

(** Joins the serialized members of an object or array
    (SerializeJSONObject / SerializeJSONArray, final steps). *)
Definition wrap (opening closing gap indent stepback : string)
    (partial : list string) : string :=
  match partial with
  | [] => opening +:+ closing
  | _ =>
      if Js.falsy gap
      then opening +:+ String.concat "," partial +:+ closing
      else opening +:+ newline +:+ indent
           +:+ String.concat ("," +:+ newline +:+ indent) partial
           +:+ newline +:+ stepback +:+ closing
  end.

(** SerializeJSONProperty with the given [gap], at indentation [indent]. *)
Fixpoint serialize (gap indent : string) (v : value) {struct v} : string :=
  match v with
  | Null => "null"
  | Number n => of_Z n
  | Str s => quote s
  | Array items =>
      let stepback := indent in
      let indent := indent +:+ gap in
      wrap "[" "]" gap indent stepback (map (serialize gap indent) items)
  | Object props =>
      let stepback := indent in
      let indent := indent +:+ gap in
      wrap "{" "}" gap indent stepback
        (map (fun kv =>
                quote (fst kv) +:+ ":"
                +:+ (if Js.falsy gap then EmptyString else " ")
                +:+ serialize gap indent (snd kv)) props)
  end.

(** [JSON.stringify(v)] *)
Definition stringify (v : value) : string := serialize EmptyString EmptyString v.

(** [JSON.stringify(v, null, 2)] *)
Definition stringify_pretty (v : value) : string := serialize "  " EmptyString v.

Definition of_operation (op : operation) : value :=
  match op with
  | OpDelete position length content =>
      Object [("type", Str "delete"); ("position", Number position);
              ("length", Number length); ("content", Str content)]
  | OpInsert position content =>
      Object [("type", Str "insert"); ("position", Number position);
              ("content", Str content)]
  end.

Definition of_change (c : change) : value :=
  match c with
  | CreateFile content => Object [("type", Str "createFile"); ("content", Str content)]
  | DeleteFile => Object [("type", Str "deleteFile")]
  | Ops operations => Array (map of_operation operations)
  end.

Definition of_changes (changes : Obj.t change) : value :=
  Object (map (fun kv => (fst kv, of_change (snd kv))) changes).

(** The document written to a part file: [{ changes: currentPartChanges }]. *)
Definition of_part (changes : Obj.t change) : value :=
  Object [("changes", of_changes changes)].

End Json.

(** ** The paginated object store (spec section 4.1) *)

(** [utils/constants.js] *)
Definition MAX_PART_SIZE : Z := 32000000.

(** The splitting loop occurs four times in the sources, with the same
    body.  The copies differ only in three points, which are the
    parameters of this module:
    - [part_name]: the file name given to part number [n];
    - [guard_nonempty]: whether the test before a flush also asks
      [Object.keys(currentPartChanges).length > 0]
      ([add], [savePaginatedChanges], [commit]: yes; [merge]: no);
    - [skip_empty]: whether the flushing helper returns at once when
      [currentPartChanges] is empty
      ([savePaginatedChanges], [commit], [merge]: yes; [add]: no). *)
Module Pager.

Record t : Type := mk {
  parts : list (string * Obj.t change);   (* part files written so far *)
  currentPartChanges : Obj.t change;
  currentSize : Z
}.

Definition init : t :=
  {| parts := []; currentPartChanges := []; currentSize := 0 |}.

(** [JSON.stringify(changeSet).length] *)
Definition size_of (changeSet : change) : Z :=
  Js.length (Json.stringify (Json.of_change changeSet)).

(** The helper [savePart] / [saveCommitPart] / [saveStagePart]. *)
Definition savePart (part_name : nat -> string) (skip_empty : bool) (st : t) : t :=
  if skip_empty && Obj.is_empty (currentPartChanges st) then st
  else
    let partName := part_name (List.length (parts st)) in
    {| parts := parts st ++ [(partName, currentPartChanges st)];
       currentPartChanges := [];
       currentSize := 0 |}.

(** One iteration of [for (const [file, changeSet] of Object.entries(..))]. *)
Definition step (part_name : nat -> string) (guard_nonempty skip_empty : bool)
    (st : t) (entry : string * change) : t :=
  let file := fst entry in
  let changeSet := snd entry in
  let size := size_of changeSet in
  let st :=
    if (currentSize st + size >? MAX_PART_SIZE)
       && (if guard_nonempty then negb (Obj.is_empty (currentPartChanges st)) else true)
    then savePart part_name skip_empty st
    else st in
  {| parts := parts st;
     currentPartChanges := Obj.set file changeSet (currentPartChanges st);
     currentSize := currentSize st + size |}.

(** The loop followed by the final flush; the result lists the part
    files written, in order. *)
Definition run (part_name : nat -> string) (guard_nonempty skip_empty : bool)
    (entries : Obj.t change) : list (string * Obj.t change) :=
  parts (savePart part_name skip_empty
           (fold_left (step part_name guard_nonempty skip_empty) entries init)).

End Pager.

(** [`${prefix}part.${n}.json`] *)
Definition part_name (prefix : string) (n : nat) : string :=
  prefix +:+ "part." +:+ Json.of_nat n +:+ ".json".

(** ** The repository on disk (spec section 6) *)

(** A directory with the layout of [stage/] and [cache/stash_<ms>/]:
    [manifest.json] holding [{ parts: [...] }], and part files holding
    [{ changes: {...} }]. *)
Record paged_dir : Type := mk_paged_dir {
  pd_manifest : option (list string);
  pd_parts : gmap string (Obj.t change)
}.

(** A commit master [<hash>.json].  Masters written by [commit] carry
    [parts]; [getStateByHash] also accepts a master with inline [changes]. *)
Record commit_master : Type := mk_commit_master {
  cm_hash : string;
  cm_message : string;
  cm_timestamp : Z;
  cm_parent : option string;
  cm_parts : option (list string);
  cm_changes : option (Obj.t change)
}.

(** A branch directory [history/local/<branch>/] or
    [history/remote/<branch>/]: [manifest.json] holding [{ commits }],
    the masters by hash and the part files by name.  The three kinds of
    file are kept apart: a hash is taken not to produce the file name of a
    manifest or of a part. *)
Record branch_dir : Type := mk_branch_dir {
  bd_manifest : option (list string);
  bd_masters : gmap string commit_master;
  bd_parts : gmap string (Obj.t change)
}.

(** [art.json] *)
Record head_state : Type := mk_head_state {
  active_branch : string;
  active_parent : option string;
  remote : string;
  configuration : Obj.t string
}.

(** The workspace: the metadata directory [.art/] and, in [worktree], the
    files outside it by their path relative to the workspace root.  File
    contents are the strings that [readFileSync(_, 'utf8')] returns. *)
Record repo : Type := mk_repo {
  art_json : option head_state;
  root_manifest : option (list string);
  root_parts : gmap string (list (string * string));
  history_local : gmap string branch_dir;
  history_remote : gmap string branch_dir;
  stage : option paged_dir;
  cache : gmap string paged_dir;
  worktree : gmap string string
}.

Definition set_art_json (h : option head_state) (fs : repo) : repo :=
  mk_repo h (root_manifest fs) (root_parts fs) (history_local fs)
    (history_remote fs) (stage fs) (cache fs) (worktree fs).

Definition set_history_local (l : gmap string branch_dir) (fs : repo) : repo :=
  mk_repo (art_json fs) (root_manifest fs) (root_parts fs) l
    (history_remote fs) (stage fs) (cache fs) (worktree fs).

Definition set_history_remote (r : gmap string branch_dir) (fs : repo) : repo :=
  mk_repo (art_json fs) (root_manifest fs) (root_parts fs) (history_local fs)
    r (stage fs) (cache fs) (worktree fs).

Definition set_stage (s : option paged_dir) (fs : repo) : repo :=
  mk_repo (art_json fs) (root_manifest fs) (root_parts fs) (history_local fs)
    (history_remote fs) s (cache fs) (worktree fs).

Definition set_worktree (w : gmap string string) (fs : repo) : repo :=
  mk_repo (art_json fs) (root_manifest fs) (root_parts fs) (history_local fs)
    (history_remote fs) (stage fs) (cache fs) w.

Definition set_bd_manifest (commits : list string) (d : branch_dir) : branch_dir :=
  mk_branch_dir (Some commits) (bd_masters d) (bd_parts d).

Definition set_active_parent (p : option string) (h : head_state) : head_state :=
  mk_head_state (active_branch h) p (remote h) (configuration h).

(** ** Operations as state transformers that may throw *)

Inductive exn : Type :=
  | Error (message : string)      (* [throw new Error(message)] *)
  | ENOENT (path : string)        (* a read or write below a missing path *)
  | EISDIR (path : string)        (* a file operation on a directory *)
  | ENOTDIR (path : string).      (* a path that leads through a file
                                     ([mkdirSync] reports it as ENOTDIR or EEXIST) *)

Inductive outcome (A : Type) : Type :=
  | Return (a : A)
  | Throw (e : exn).
Arguments Return {A} a.
Arguments Throw {A} e.

(** A call runs on a repository and leaves a repository behind, also when
    it throws: what was written before the exception stays on disk. *)
Definition M (A : Type) : Type := repo -> outcome A * repo.

Definition ret {A} (a : A) : M A := fun fs => (Return a, fs).
Definition throw {A} (e : exn) : M A := fun fs => (Throw e, fs).
Definition bind {A B} (m : M A) (k : A -> M B) : M B :=
  fun fs =>
    match m fs with
    | (Return a, fs') => k a fs'
    | (Throw e, fs') => (Throw e, fs')
    end.
Definition get_repo : M repo := fun fs => (Return fs, fs).
Definition modify (f : repo -> repo) : M unit := fun fs => (Return tt, f fs).
Definition lift {A} (o : outcome A) : M A := fun fs => (o, fs).

Notation "'let*' x ':=' m 'in' k" := (bind m (fun x => k))
  (at level 10, x name, m at level 100, k at level 200, only parsing).
Notation "m ';;' k" := (bind m (fun _ => k))
  (at level 100, k at level 200, right associativity, only parsing).

(** [JSON.parse(fs.readFileSync(artifactJsonPath, 'utf8'))] *)
Definition read_art_json : M head_state :=
  fun fs =>
    match art_json fs with
    | Some h => (Return h, fs)
    | None => (Throw (ENOENT ".art/art.json"), fs)
    end.

(** [fs.writeFileSync(artifactJsonPath, JSON.stringify(artifactJson, null, 2))] *)
Definition write_art_json (h : head_state) : M unit :=
  modify (set_art_json (Some h)).

(** ** Reading paginated directories *)

(** [getPaginatedChanges(directoryPath)] (Caches); the argument is the
    directory found at the path, if any. *)
Definition getPaginatedChanges (directory : option paged_dir) : Obj.t change :=
  match directory with
  | None => []
  | Some dir =>
      match pd_manifest dir with
      | None => []
      | Some parts =>
          fold_left
            (fun allChanges partName =>
               match pd_parts dir !! partName with
               | Some partData => Obj.assign allChanges partData
               | None => allChanges
               end)
            parts []
      end
  end.

(** [getStagedChanges(artifactPath)] (Workflow): the same code, on [stage/]. *)
Definition getStagedChanges (fs : repo) : Obj.t change :=
  getPaginatedChanges (stage fs).

(** [savePaginatedChanges(directoryPath, changes)] (Caches): the directory
    is removed and written anew; the result is its new content. *)
Definition savePaginatedChanges (changes : Obj.t change) : paged_dir :=
  let written := Pager.run (part_name EmptyString) true true changes in
  {| pd_manifest := Some (map fst written);
     pd_parts := list_to_map written |}.

(** ** The state reconstructor ([getStateByHash]) *)

(** Lines 56-65: the root snapshot parts, read without an existence check. *)
Fixpoint load_root (files : gmap string (list (string * string)))
    (partNames : list string) (state : Obj.t string) : outcome (Obj.t string) :=
  match partNames with
  | [] => Return state
  | partName :: rest =>
      match files !! partName with
      | None => Throw (ENOENT (".art/root/" +:+ partName))
      | Some partData =>
          load_root files rest
            (fold_left (fun st file => Obj.set (fst file) (snd file) st) partData state)
      end
  end.

(** Lines 87-107: [fullChanges] of one commit. *)
Definition full_changes (dir : branch_dir) (commitMaster : commit_master)
    : Obj.t change :=
  match cm_parts commitMaster with
  | Some parts =>
      fold_left
        (fun fullChanges partName =>
           match bd_parts dir !! partName with
           | Some partData => Obj.assign fullChanges partData
           | None => fullChanges
           end)
        parts []
  | None =>
      match cm_changes commitMaster with
      | Some changes => changes
      | None => []
      end
  end.

(** Lines 114-134: one entry of [fullChanges] applied to [state]. *)
Definition apply_change (state : Obj.t string) (entry : string * change)
    : Obj.t string :=
  let filePath := fst entry in
  match snd entry with
  | Ops changeSet =>
      let currentContent := Js.or_empty (Obj.get filePath state) in
      Obj.set filePath (Replay.apply_operations changeSet currentContent) state
  | CreateFile content => Obj.set filePath content state
  | DeleteFile => Obj.remove filePath state
  end.

Definition apply_commit (dir : branch_dir) (commitMaster : commit_master)
    (state : Obj.t string) : Obj.t string :=
  fold_left apply_change (full_changes dir commitMaster) state.

(** Lines 76-139: the loop over [manifest.commits], with its [continue]
    for a missing master and its [break] on the target. *)
Fixpoint replay (dir : branch_dir) (targetHash : option string)
    (commits : list string) (state : Obj.t string) : Obj.t string :=
  match commits with
  | [] => state
  | hash :: rest =>
      match bd_masters dir !! hash with
      | None => replay dir targetHash rest state
      | Some commitMaster =>
          let state := apply_commit dir commitMaster state in
          if bool_decide (Some hash = targetHash) then state
          else replay dir targetHash rest state
      end
  end.

Definition getStateByHash (fs : repo) (branchName : string)
    (targetHash : option string) : outcome (Obj.t string) :=
  match root_manifest fs with
  | None => Return []
  | Some rootMaster =>
      match history_local fs !! branchName with
      | None => Return []
      | Some dir =>
          match bd_manifest dir with
          | None => Return []
          | Some commits =>
              match load_root (root_parts fs) rootMaster [] with
              | Throw e => Throw e
              | Return state =>
                  if Js.falsy_opt targetHash then Return state
                  else Return (replay dir targetHash commits state)
              end
          end
      end
  end.

(** ** Access to branch directories and the working tree *)

(** [fs.existsSync(path.join(root, file))] for a file path.  The working
    tree is a flat map: the path of a file is taken never to be the path of
    a directory as well. *)
Definition file_exists (work : gmap string string) (file : string) : bool :=
  bool_decide (is_Some (work !! file)).

(** The files below a directory of the working tree ([readdirSync] with
    [recursive: true], directories left out); the root is the empty path. *)
Definition files_below (work : gmap string string) (directory : string)
    : list (string * string) :=
  List.filter
    (fun entry =>
       Js.falsy directory || Js.startsWith (fst entry) (directory +:+ "/"))
    (map_to_list work).

Definition is_directory (work : gmap string string) (target : string) : bool :=
  negb (file_exists work target)
  && (Js.falsy target || negb (Nat.eqb (List.length (files_below work target)) 0)).

(** [fs.existsSync(path.join(root, p))]: there is a file or a directory
    at the path. *)
Definition path_exists (work : gmap string string) (p : string) : bool :=
  file_exists work p || is_directory work p.

(** The paths of the files of the working tree. *)
Definition tree_paths (work : gmap string string) : list string :=
  map fst (map_to_list work).

(** [d] is the path of a directory above [p]. *)
Definition ancestor_of (d p : string) : bool := Js.startsWith p (d +:+ "/").

(** A file of [work] lies below [p]. *)
Definition has_below (work : gmap string string) (p : string) : bool :=
  existsb (ancestor_of p) (tree_paths work).

(** A file of [work] lies at a path above [p]. *)
Definition below_a_file (work : gmap string string) (p : string) : bool :=
  existsb (fun d => ancestor_of d p) (tree_paths work).

(** The directories during a call that started on the tree [initial]
    and has brought it to [work]: the root, and what lies above a file
    of either tree ([mkdirSync] makes the directories above a file that
    is written; a directory stays when its files are removed).  A tree
    has no other directories: empty ones are not modelled. *)
Definition is_dir (initial work : gmap string string) (p : string) : bool :=
  Js.falsy p || has_below initial p || has_below work p.

(** [fs.mkdirSync(path.dirname(p), { recursive: true })] followed by
    [fs.writeFileSync(p, _)]: the exception thrown, if any. *)
Definition write_error (initial work : gmap string string) (p : string)
    : option exn :=
  if below_a_file work p then Some (ENOTDIR p)
  else if is_dir initial work p then Some (EISDIR p)
  else None.

(** [if (fs.existsSync(p)) { fs.unlinkSync(p) }]: the exception thrown,
    if any. *)
Definition unlink_error (initial work : gmap string string) (p : string)
    : option exn :=
  if file_exists work p then None
  else if is_dir initial work p then Some (EISDIR p)
  else None.

(** [JSON.parse(fs.readFileSync(<branch>/manifest.json)).commits] *)
Definition read_manifest (branchName : string) : M (list string) :=
  fun fs =>
    match history_local fs !! branchName with
    | Some dir =>
        match bd_manifest dir with
        | Some commits => (Return commits, fs)
        | None =>
            (Throw (ENOENT (".art/history/local/" +:+ branchName +:+ "/manifest.json")), fs)
        end
    | None =>
        (Throw (ENOENT (".art/history/local/" +:+ branchName +:+ "/manifest.json")), fs)
    end.

(** A write of one file of [history/local/<branch>/]; the directory must
    exist. *)
Definition update_branch_dir (branchName : string) (f : branch_dir -> branch_dir)
    : M unit :=
  fun fs =>
    match history_local fs !! branchName with
    | Some dir =>
        (Return tt, set_history_local (<[branchName := f dir]> (history_local fs)) fs)
    | None => (Throw (ENOENT (".art/history/local/" +:+ branchName)), fs)
    end.

Definition write_manifest (branchName : string) (commits : list string) : M unit :=
  update_branch_dir branchName (set_bd_manifest commits).

Definition write_master (branchName hash : string) (m : commit_master) : M unit :=
  update_branch_dir branchName
    (fun d => mk_branch_dir (bd_manifest d) (<[hash := m]> (bd_masters d)) (bd_parts d)).

Definition write_part (branchName : string) (part : string * Obj.t change) : M unit :=
  update_branch_dir branchName
    (fun d =>
       mk_branch_dir (bd_manifest d) (bd_masters d)
         (<[fst part := snd part]> (bd_parts d))).

Fixpoint for_each {A} (f : A -> M unit) (l : list A) : M unit :=
  match l with
  | [] => ret tt
  | x :: rest => f x ;; for_each f rest
  end.

(** ** Workflow: [add] and [commit] *)

(** [add], lines 204-257: the staging loop.  [currentStaged] is updated
    per file; the file is read first.  [activeState[relativePath]] is the
    lookup of an own key: this is the loop for paths that are no members
    of [Object.prototype] ([ordinary_path]). *)
Fixpoint stage_files (activeState : Obj.t string) (work : gmap string string)
    (filesToProcess : list string) (currentStaged : Obj.t change)
    : outcome (Obj.t change) :=
  match filesToProcess with
  | [] => Return currentStaged
  | relativePath :: rest =>
      match work !! relativePath with
      | None => Throw (ENOENT relativePath)
      | Some currentContent =>
          let currentStaged :=
            match Obj.get relativePath activeState with
            | None => Obj.set relativePath (CreateFile currentContent) currentStaged
            | Some previousContent =>
                if negb (bool_decide (currentContent = previousContent)) then
                  let operations := Delta.delta previousContent currentContent in
                  if Z.of_nat (List.length operations) >? 0
                  then Obj.set relativePath (Ops operations) currentStaged
                  else currentStaged
                else currentStaged
            end in
          stage_files activeState work rest currentStaged
      end
  end.

(** [add(targetPath)].  [targetPath] is given relative to the workspace
    root and normalized ([relativeTarget]); [shouldIgnore] is the ignore
    predicate. *)
Definition add (shouldIgnore : string -> bool) (targetPath : string) : M string :=
  let* fs := get_repo in
  let work := worktree fs in
  if negb (file_exists work targetPath || is_directory work targetPath)
  then throw (Error ("Path does not exist: " +:+ targetPath))
  else
    let* artifactJson := read_art_json in
    let* activeState :=
      lift (getStateByHash fs (active_branch artifactJson) (active_parent artifactJson)) in
    let currentStaged := getStagedChanges fs in
    let isDirectory := is_directory work targetPath in
    let relativeTarget := targetPath in
    if negb isDirectory && shouldIgnore relativeTarget
       && Js.falsy_opt (Obj.get relativeTarget activeState)
    then ret (relativeTarget +:+ " is being ignored.")
    else
      let filesToProcess :=
        if isDirectory
        then
          List.filter
            (fun relativeEntry =>
               negb (Js.startsWith relativeEntry ".art")
               && (negb (shouldIgnore relativeEntry)
                   || negb (Js.falsy_opt (Obj.get relativeEntry activeState))))
            (map fst (files_below work targetPath))
        else [relativeTarget] in
      if Nat.eqb (List.length filesToProcess) 0
      then ret "No changes to add."
      else
        let* currentStaged :=
          lift (stage_files activeState work filesToProcess currentStaged) in
        (* lines 263-303: the stage directory is removed and rewritten;
           [savePart] has no test for an empty part here *)
        let stageParts := Pager.run (part_name EmptyString) true false currentStaged in
        modify (set_stage
                  (Some {| pd_manifest := Some (map fst stageParts);
                           pd_parts := list_to_map stageParts |})) ;;
        ret ("Added " +:+ Json.of_nat (List.length filesToProcess)
             +:+ " file(s) to stage.").

(** [commit(message)].  [sha1_hex] is the SHA-1 hex digest and [now] the
    value of [Date.now()]. *)
Definition commit (sha1_hex : string -> string) (now : Z) (message : string)
    : M string :=
  if Js.falsy message then throw (Error "A commit message is required.")
  else
    let* fs := get_repo in
    match stage fs with
    | None => throw (Error "Nothing to commit (stage is empty).")
    | Some _ =>
        let stagedChanges := getStagedChanges fs in
        let* artifactJson := read_art_json in
        let branch := active_branch artifactJson in
        let timestamp := now in
        let commitHash :=
          sha1_hex (Json.stringify (Json.of_changes stagedChanges)
                    +:+ Json.of_Z timestamp +:+ message) in
        let written := Pager.run (part_name (commitHash +:+ ".")) true true stagedChanges in
        for_each (write_part branch) written ;;
        let commitMaster :=
          {| cm_hash := commitHash;
             cm_message := message;
             cm_timestamp := timestamp;
             cm_parent := active_parent artifactJson;
             cm_parts := Some (map fst written);
             cm_changes := None |} in
        write_master branch commitHash commitMaster ;;
        let* commits := read_manifest branch in
        write_manifest branch (commits ++ [commitHash]) ;;
        write_art_json (set_active_parent (Some commitHash) artifactJson) ;;
        modify (set_stage None) ;;
        ret ("[" +:+ branch +:+ " " +:+ Js.slice commitHash 0 7 +:+ "] " +:+ message)
    end.

(** ** Branching: [branch], [checkout], [merge] *)

Fixpoint string_exists (p : ascii -> bool) (s : string) : bool :=
  match s with
  | EmptyString => false
  | String c rest => p c || string_exists p rest
  end.

Fixpoint string_forall (p : ascii -> bool) (s : string) : bool :=
  match s with
  | EmptyString => true
  | String c rest => p c && string_forall p rest
  end.

(** [/[\/\\]/] *)
Definition illegalRegularExpression (name : string) : bool :=
  string_exists (fun c => (N_of_ascii c =? 47)%N || (N_of_ascii c =? 92)%N) name.

(** [/[\x00-\x1f\x80-\x9f]/] *)
Definition controlRegularExpression (name : string) : bool :=
  string_exists
    (fun c => (N_of_ascii c <=? 31)%N
              || ((128 <=? N_of_ascii c)%N && (N_of_ascii c <=? 159)%N)) name.

(** [/^\.+$/] *)
Definition reservedRegularExpression (name : string) : bool :=
  negb (Js.falsy name) && string_forall (fun c => (N_of_ascii c =? 46)%N) name.

Definition quoted (s : string) : string := Json.dquote +:+ s +:+ Json.dquote.

(** [branch] returns a message, or the list of branches. *)
Inductive branch_result : Type :=
  | BranchList (names : list string)
  | BranchMessage (message : string).

Definition empty_branch_dir (commits : list string) : branch_dir :=
  mk_branch_dir (Some commits) ∅ ∅.

(** Lines 154-181: one commit copied to the new branch directory, from
    the local directory of the source branch or else from its remote
    mirror. *)
Definition copy_commit (sourceBranch sourceRemote : option branch_dir)
    (destination : branch_dir) (hash : string) : branch_dir :=
  let local_master := sourceBranch ≫= (fun d => bd_masters d !! hash) in
  let masterFile :=
    match local_master with
    | Some m => Some m
    | None => sourceRemote ≫= (fun d => bd_masters d !! hash)
    end in
  let currentSourceDirectory :=
    match local_master with
    | Some _ => sourceBranch
    | None => sourceRemote
    end in
  match masterFile with
  | None => destination
  | Some commitMaster =>
      let destination :=
        mk_branch_dir (bd_manifest destination)
          (<[hash := commitMaster]> (bd_masters destination))
          (bd_parts destination) in
      match cm_parts commitMaster with
      | None => destination
      | Some parts =>
          fold_left
            (fun dest partName =>
               match currentSourceDirectory ≫= (fun d => bd_parts d !! partName) with
               | Some sourcePart =>
                   mk_branch_dir (bd_manifest dest) (bd_masters dest)
                     (<[partName := sourcePart]> (bd_parts dest))
               | None => dest
               end)
            parts destination
      end
  end.

(** [branch({ name, isDelete })].  A branch directory is found under its
    name in [history_local]. *)
Definition branch (name : option string) (isDelete : bool) : M branch_result :=
  let* fs := get_repo in
  if Js.falsy_opt name then
    ret (BranchList
           (List.filter
              (fun entry =>
                 negb (bool_decide (entry = ".DS_Store"))
                 && negb (bool_decide (entry = "desktop.ini"))
                 && negb (bool_decide (entry = "thumbs.db")))
              (map fst (map_to_list (history_local fs)))))
  else
    let name := default EmptyString name in
    if illegalRegularExpression name || controlRegularExpression name
       || reservedRegularExpression name
    then throw (Error ("Invalid branch name: " +:+ quoted name
                       +:+ ". Branch names cannot contain slashes or illegal characters."))
    else if isDelete then
      match history_local fs !! name with
      | None => throw (Error ("Local branch " +:+ quoted name +:+ " does not exist."))
      | Some _ =>
          let* artifactJson := read_art_json in
          if bool_decide (active_branch artifactJson = name)
          then throw (Error ("Local branch " +:+ quoted name
                             +:+ " is in use and can't be deleted right now."))
          else
            modify (fun fs => set_history_local (delete name (history_local fs)) fs) ;;
            modify (fun fs => set_history_remote (delete name (history_remote fs)) fs) ;;
            ret (BranchMessage ("Deleted local branch " +:+ quoted name +:+ "."))
      end
    else
      match history_local fs !! name with
      | Some _ => throw (Error ("Local branch " +:+ quoted name +:+ " already exists."))
      | None =>
          let* artifactJson := read_art_json in
          let sourceBranchName := active_branch artifactJson in
          let sourceBranch := history_local fs !! sourceBranchName in
          let sourceRemote := history_remote fs !! sourceBranchName in
          let initialCommits := default [] (sourceBranch ≫= bd_manifest) in
          let remote_dirs :=
            match history_remote fs !! name with
            | Some _ => history_remote fs
            | None => <[name := empty_branch_dir initialCommits]> (history_remote fs)
            end in
          let created :=
            fold_left (copy_commit sourceBranch sourceRemote) initialCommits
              (empty_branch_dir initialCommits) in
          modify (fun fs => set_history_local (<[name := created]> (history_local fs)) fs) ;;
          modify (set_history_remote remote_dirs) ;;
          ret (BranchMessage ("Created branch " +:+ quoted name +:+ "."))
      end.

Definition dirty_message : string :=
  "Your local changes would be overwritten by checkout. Please commit or stash them.".

(** Lines 225-256: the dirty-tree check. *)
Definition is_dirty (work : gmap string string) (currentState : Obj.t string) : bool :=
  let allWorkingDirectoryFiles :=
    List.filter (fun entry => negb (Js.startsWith (fst entry) ".art"))
      (map_to_list work) in
  let isDirty :=
    existsb
      (fun entry =>
         negb (bool_decide (Some (snd entry) = Obj.get (fst entry) currentState)))
      allWorkingDirectoryFiles in
  if negb isDirty
  then existsb (fun file => negb (path_exists work file)) (Obj.keys currentState)
  else isDirty.

(** Lines 276-284: files of the current state that the target state lacks
    (or holds with empty content) are removed.  This is the loop on
    writable paths ([writable]): [targetState[filePath]] is the lookup of
    an own key, and [rmSync] meets a file or nothing, not a directory. *)
Definition remove_stale (currentState targetState : Obj.t string)
    (work : gmap string string) : gmap string string :=
  fold_left
    (fun w filePath =>
       if Js.falsy_opt (Obj.get filePath targetState) then delete filePath w else w)
    (Obj.keys currentState) work.

(** Lines 290-295: every file of the target state is written.  This is
    the loop on writable paths ([writable]), where neither [mkdirSync]
    nor [writeFileSync] throws. *)
Definition write_state (targetState : Obj.t string) (work : gmap string string)
    : gmap string string :=
  fold_left (fun w entry => <[fst entry := snd entry]> w) targetState work.

(** [checkout(branchName, { force })] *)
Definition checkout (branchName : string) (force : bool) : M string :=
  let* fs := get_repo in
  match history_local fs !! branchName with
  | None => let* _ := branch (Some branchName) false in ret tt
  | Some _ => ret tt
  end ;;
  let* artifactJson := read_art_json in
  let* fs := get_repo in
  let* currentState :=
    lift (getStateByHash fs (active_branch artifactJson) (active_parent artifactJson)) in
  (if negb force && is_dirty (worktree fs) currentState
   then throw (Error dirty_message)
   else ret tt) ;;
  let* commits := read_manifest branchName in
  let targetHash := last commits in
  let* targetState := lift (getStateByHash fs branchName targetHash) in
  modify (fun fs => set_worktree (remove_stale currentState targetState (worktree fs)) fs) ;;
  modify (fun fs => set_worktree (write_state targetState (worktree fs)) fs) ;;
  write_art_json
    (mk_head_state branchName targetHash (remote artifactJson) (configuration artifactJson)) ;;
  ret ("Switched to branch " +:+ quoted branchName +:+ ".").

(** The conflict blob of [merge], line 418. *)
Definition conflict_content (active target : option string) (targetBranch : string)
    : string :=
  "<<<<<<< active" +:+ Json.newline +:+ Js.or_empty active +:+ Json.newline
  +:+ "=======" +:+ Json.newline +:+ Js.or_empty target +:+ Json.newline
  +:+ ">>>>>>> " +:+ targetBranch.

(** Lines 384-439: one iteration of the loop over [allFiles], when its
    file-system calls succeed ([merge_file_error] tells when they do
    not); the state of the loop is the working tree and the staging
    pager. *)
Definition merge_file (targetBranch : string)
    (baseState activeState targetState : Obj.t string)
    (acc : gmap string string * Pager.t) (filePath : string)
    : gmap string string * Pager.t :=
  let work := fst acc in
  let pager := snd acc in
  let base := Obj.get filePath baseState in
  let active := Obj.get filePath activeState in
  let target := Obj.get filePath targetState in
  if bool_decide (active = target) then acc
  else
    let result :=
      if bool_decide (base = active) && negb (bool_decide (base = target)) then
        match target with
        | None => (delete filePath work, Some DeleteFile)
        | Some content => (<[filePath := content]> work, Some (CreateFile content))
        end
      else if negb (bool_decide (base = active)) && negb (bool_decide (base = target))
              && negb (bool_decide (active = target)) then
        let conflictContent := conflict_content active target targetBranch in
        (<[filePath := conflictContent]> work, Some (CreateFile conflictContent))
      else (work, None) in
    match snd result with
    | Some change =>
        (fst result,
         Pager.step (part_name EmptyString) false true pager (filePath, change))
    | None => (fst result, pager)
    end.

(** Lines 345-347:
    [[...activeManifest.commits].reverse().find(hash =>
       targetManifest.commits.includes(hash)) || null] *)
Definition common_ancestor (activeCommits targetCommits : list string)
    : option string :=
  match List.find (fun hash => bool_decide (hash ∈ targetCommits)) (rev activeCommits) with
  | Some hash => if Js.falsy hash then None else Some hash
  | None => None
  end.

(** Line 353:
    [commonAncestorHash ? getStateByHash(activeBranch, commonAncestorHash) : {}] *)
Definition base_state (fs : repo) (activeBranch : string)
    (commonAncestorHash : option string) : outcome (Obj.t string) :=
  match commonAncestorHash with
  | Some _ => getStateByHash fs activeBranch commonAncestorHash
  | None => Return []
  end.

(** Lines 398-421: whether a file-system call of the iteration throws,
    on the working tree [work] that the loop has reached. *)
Definition merge_file_error (initial : gmap string string)
    (baseState activeState targetState : Obj.t string)
    (work : gmap string string) (filePath : string) : option exn :=
  let base := Obj.get filePath baseState in
  let active := Obj.get filePath activeState in
  let target := Obj.get filePath targetState in
  if bool_decide (active = target) then None
  else if bool_decide (base = active) && negb (bool_decide (base = target)) then
    match target with
    | None => unlink_error initial work filePath
    | Some _ => write_error initial work filePath
    end
  else if negb (bool_decide (base = active)) && negb (bool_decide (base = target))
          && negb (bool_decide (active = target)) then
    write_error initial work filePath
  else None.

(** The loop over [allFiles]: it stops at the first exception, with what
    was written until then. *)
Fixpoint merge_files (targetBranch : string)
    (baseState activeState targetState : Obj.t string)
    (initial : gmap string string) (files : list string)
    (acc : gmap string string * Pager.t)
    : option exn * (gmap string string * Pager.t) :=
  match files with
  | [] => (None, acc)
  | filePath :: rest =>
      match merge_file_error initial baseState activeState targetState
              (fst acc) filePath with
      | Some e => (Some e, acc)
      | None =>
          merge_files targetBranch baseState activeState targetState initial rest
            (merge_file targetBranch baseState activeState targetState acc filePath)
      end
  end.

(** [merge(targetBranch)] *)
Definition merge (targetBranch : string) : M string :=
  let* artifactJson := read_art_json in
  let activeBranch := active_branch artifactJson in
  modify (set_stage (Some {| pd_manifest := None; pd_parts := ∅ |})) ;;
  let* activeCommits := read_manifest activeBranch in
  let* targetCommits := read_manifest targetBranch in
  let commonAncestorHash := common_ancestor activeCommits targetCommits in
  let* fs := get_repo in
  let* baseState := lift (base_state fs activeBranch commonAncestorHash) in
  let* activeState := lift (getStateByHash fs activeBranch (active_parent artifactJson)) in
  let lastTargetHash := last targetCommits in
  let* targetState := lift (getStateByHash fs targetBranch lastTargetHash) in
  let allFiles := js_set (Obj.keys activeState ++ Obj.keys targetState) in
  let looped :=
    merge_files targetBranch baseState activeState targetState (worktree fs)
      allFiles (worktree fs, Pager.init) in
  let merged := snd looped in
  modify (set_worktree (fst merged)) ;;
  match fst looped with
  | Some e =>
      (* the parts saved so far are on disk, the manifest is not *)
      modify (set_stage
                (Some {| pd_manifest := None;
                         pd_parts := list_to_map (Pager.parts (snd merged)) |})) ;;
      throw e
  | None =>
      let written :=
        Pager.parts (Pager.savePart (part_name EmptyString) true (snd merged)) in
      modify (set_stage
                (Some {| pd_manifest := Some (map fst written);
                         pd_parts := list_to_map written |})) ;;
      ret ("Merged " +:+ targetBranch +:+ ".")
  end.

(** ** Caches: [reset] and [rm] *)

(** [commits.indexOf(hash)] *)
Fixpoint indexOf (hash : string) (commits : list string) : Z :=
  match commits with
  | [] => -1
  | h :: rest =>
      if decide (h = hash) then 0
      else let i := indexOf hash rest in if i =? -1 then -1 else i + 1
  end.

(** [reset(hash)] *)
Definition reset (hash : option string) : M string :=
  modify (set_stage None) ;;
  if Js.falsy_opt hash then ret "Staging area cleared."
  else
    let hash := default EmptyString hash in
    let* artifactJson := read_art_json in
    let branchName := active_branch artifactJson in
    let* fs := get_repo in
    match history_local fs !! branchName ≫= (fun d => bd_masters d !! hash) with
    | None =>
        throw (Error ("Commit " +:+ hash +:+ " not found in branch " +:+ branchName +:+ "."))
    | Some _ =>
        write_art_json (set_active_parent (Some hash) artifactJson) ;;
        let* commits := read_manifest branchName in
        let hashIndex := indexOf hash commits in
        (if negb (hashIndex =? -1)
         then write_manifest branchName (take (Z.to_nat (hashIndex + 1)) commits)
         else ret tt) ;;
        checkout branchName false ;;
        ret ("Branch is now at " +:+ Js.slice hash 0 7 +:+ ". Working directory updated.")
    end.

(** [rm(filePath)]: the deletion is staged first; then
    [if (fs.existsSync(fullPath)) { fs.unlinkSync(fullPath) }], which
    throws on a directory. *)
Definition rm (filePath : string) : M string :=
  let* fs := get_repo in
  let stage := getPaginatedChanges (stage fs) in
  let stage := Obj.set filePath DeleteFile stage in
  modify (set_stage (Some (savePaginatedChanges stage))) ;;
  match unlink_error (worktree fs) (worktree fs) filePath with
  | Some e => throw e
  | None =>
      modify (fun fs => set_worktree (delete filePath (worktree fs)) fs) ;;
      ret ("File " +:+ filePath +:+ " marked for removal.")
  end.

(** ** Workflow: [status] *)

Record status_report : Type := mk_status_report {
  sr_activeBranch : string;
  sr_lastCommit : option string;
  sr_staged : list string;
  sr_modified : list string;
  sr_untracked : list string;
  sr_ignored : list string
}.

(** The names that a lookup [o[k]] finds on every object literal: the
    members of [Object.prototype]. *)
Definition prototype_names : list string :=
  ["constructor"; "__proto__"; "hasOwnProperty"; "isPrototypeOf";
   "propertyIsEnumerable"; "toLocaleString"; "toString"; "valueOf";
   "__defineGetter__"; "__defineSetter__"; "__lookupGetter__";
   "__lookupSetter__"].

Definition inherited (k : string) : bool := bool_decide (k ∈ prototype_names).

(** [!!o[k]] on an object whose own values are objects or arrays: an
    own key, or an inherited member. *)
Definition has_member {V} (k : string) (o : Obj.t V) : bool :=
  bool_decide (is_Some (Obj.get k o)) || inherited k.

(** [!!o[k]] on an object whose own values are strings: an own key with
    a non-empty value, or else an inherited member. *)
Definition truthy_member (k : string) (o : Obj.t string) : bool :=
  match Obj.get k o with
  | Some v => negb (Js.falsy v)
  | None => inherited k
  end.

(** [file === '.art' || file.startsWith(`.art${path.sep}`)] *)
Definition is_internal (file : string) : bool :=
  bool_decide (file = ".art") || Js.startsWith file ".art/".

(** [status], lines 99-127: one iteration of the loop over [allFiles];
    the state of the loop is the three lists [untracked], [modified] and
    [ignored]. *)
Definition status_file (shouldIgnore : string -> bool)
    (stagedFiles : Obj.t change) (activeState : Obj.t string)
    (acc : list string * list string * list string) (entry : string * string)
    : list string * list string * list string :=
  let '(untracked, modified, ignored) := acc in
  let file := fst entry in
  let currentContent := snd entry in
  let isStaged := has_member file stagedFiles in
  let isActive := truthy_member file activeState in
  if is_internal file then acc
  else
    let isIgnored := shouldIgnore file in
    if isIgnored && negb isActive && negb isStaged
    then (untracked, modified, ignored ++ [file])
    else if negb isStaged && negb isActive
    then (untracked ++ [file], modified, ignored)
    else if negb isStaged && isActive
    then
      if negb (bool_decide (Some currentContent = Obj.get file activeState))
      then (untracked, modified ++ [file], ignored)
      else acc
    else acc.

(** [status()] *)
Definition status (shouldIgnore : string -> bool) (fs : repo) : outcome status_report :=
  match art_json fs with
  | None => Throw (Error "No art repository found.")
  | Some artifactJson =>
      let activeBranch := active_branch artifactJson in
      let stagedFiles := getStagedChanges fs in
      match getStateByHash fs activeBranch (active_parent artifactJson) with
      | Throw e => Throw e
      | Return activeState =>
          let allFiles := map_to_list (worktree fs) in
          let '(untracked, modified, ignored) :=
            fold_left (status_file shouldIgnore stagedFiles activeState)
              allFiles ([], [], []) in
          Return {| sr_activeBranch := activeBranch;
                    sr_lastCommit := active_parent artifactJson;
                    sr_staged := Obj.keys stagedFiles;
                    sr_modified := modified;
                    sr_untracked := untracked;
                    sr_ignored := ignored |}
      end
  end.

(** ** Caches: [stash({ pop: true })] *)

(** [path.split('/')] *)
Fixpoint split_path (p : string) : list string :=
  match p with
  | EmptyString => [EmptyString]
  | String c rest =>
      if (N_of_ascii c =? 47)%N then EmptyString :: split_path rest
      else
        match split_path rest with
        | segment :: more => String c segment :: more
        | [] => [String c EmptyString]
        end
  end.

(** [path.dirname(p)] of a relative path, the root being the empty
    path. *)
Definition dirname (p : string) : string :=
  String.concat "/" (removelast (split_path p)).

(** Lines 480-505: whether a file-system call of the iteration throws.
    An operation list is replayed on
    [fs.existsSync(p) ? fs.readFileSync(p, 'utf8') : ''] and written with
    [writeFileSync] alone, without [mkdirSync]. *)
Definition pop_error (initial work : gmap string string)
    (entry : string * change) : option exn :=
  let filePath := fst entry in
  match snd entry with
  | Ops _ =>
      if file_exists work filePath then None
      else if is_dir initial work filePath then Some (EISDIR filePath)
      else if below_a_file work filePath then Some (ENOTDIR filePath)
      else if is_dir initial work (dirname filePath) then None
      else Some (ENOENT filePath)
  | CreateFile _ => write_error initial work filePath
  | DeleteFile => unlink_error initial work filePath
  end.

(** Lines 480-505: one stashed change applied to the working tree, when
    its file-system calls succeed. *)
Definition pop_change (work : gmap string string) (entry : string * change)
    : gmap string string :=
  let filePath := fst entry in
  match snd entry with
  | Ops changeSet =>
      let content := default EmptyString (work !! filePath) in
      <[filePath := Replay.apply_operations changeSet content]> work
  | CreateFile content => <[filePath := content]> work
  | DeleteFile => delete filePath work
  end.

(** The loop over the stashed changes: it stops at the first exception,
    with what was written until then. *)
Fixpoint pop_changes (initial : gmap string string)
    (stashChanges : Obj.t change) (work : gmap string string)
    : option exn * gmap string string :=
  match stashChanges with
  | [] => (None, work)
  | entry :: rest =>
      match pop_error initial work entry with
      | Some e => (Some e, work)
      | None => pop_changes initial rest (pop_change work entry)
      end
  end.

(** The [pop] branch of [stash], lines 451-510.  The entries of [cache/]
    are the stash directories; [sort()] orders their names by code unit. *)
Definition stash_pop : M string :=
  let* fs := get_repo in
  let stashes :=
    merge_sort String.le
      (List.filter (fun entry => Js.startsWith entry "stash_")
         (map fst (map_to_list (cache fs)))) in
  match last stashes with
  | None => throw (Error "No stashes found.")
  | Some latestStashDirectoryName =>
      let stashChanges :=
        getPaginatedChanges (cache fs !! latestStashDirectoryName) in
      let popped := pop_changes (worktree fs) stashChanges (worktree fs) in
      modify (set_worktree (snd popped)) ;;
      match fst popped with
      | Some e => throw e
      | None =>
          modify (fun fs =>
                    mk_repo (art_json fs) (root_manifest fs) (root_parts fs)
                      (history_local fs) (history_remote fs) (stage fs)
                      (delete latestStashDirectoryName (cache fs)) (worktree fs)) ;;
          ret ("Restored changes from " +:+ latestStashDirectoryName +:+ ".")
      end
  end.

(** ** Paths that the file system takes as they are *)

(** The model names a file of the working tree by the path that the
    code passes to [path.join(root, _)].  The two agree on the paths
    below; the guarantees about what a call writes are stated for them. *)

(** A name that the file system takes for a file or a directory: not
    empty, not [.] or [..], without a NUL character and of at most 255
    characters. *)
Definition plain_segment (segment : string) : bool :=
  negb (Js.falsy segment)
  && negb (bool_decide (segment = "."))
  && negb (bool_decide (segment = ".."))
  && negb (string_exists (fun c => (N_of_ascii c =? 0)%N) segment)
  && (Js.length segment <=? 255).

(** A normalized relative path that stays outside [.art]:
    [path.join(root, p)] is the file [p] of the working tree and
    [path.relative(root, _)] gives [p] back. *)
Definition plain_path (p : string) : bool :=
  forallb plain_segment (split_path p) && negb (is_internal p).

(** A plain path that is no member of [Object.prototype]: [o[p]] looks
    up an own key, and [o[p] = v] sets one. *)
Definition ordinary_path (p : string) : bool :=
  plain_path p && negb (inherited p).

(** No path of the list is a directory above another path of the
    list. *)
Definition clash_free (paths : list string) : bool :=
  forallb (fun d => negb (existsb (ancestor_of d) paths)) paths.

(** The paths can be written to and removed from the working tree: they
    are ordinary, and neither among themselves nor with the files of the
    tree does one lie above another. *)
Definition writable (work : gmap string string) (paths : list string) : Prop :=
  Forall (fun p => ordinary_path p = true) paths
  /\ clash_free (tree_paths work ++ paths) = true.

(** ** Properties named by the specification *)

(** Section 4.2, step 1: [start] is the length of the longest common
    prefix of the two strings. *)
Definition longest_common_prefix (p q : string) (start : Z) : Prop :=
  0 <= start /\ start <= Js.length p /\ start <= Js.length q
  /\ Js.slice p 0 start = Js.slice q 0 start
  /\ (start < Js.length p -> start < Js.length q -> Js.at_ p start <> Js.at_ q start).

(** Section 4.2, step 2: [oldEnd] and [newEnd] are where the longest
    common suffix that stays at or above [start] begins, minus one. *)
Definition common_suffix_ends (p q : string) (start oldEnd newEnd : Z) : Prop :=
  start - 1 <= oldEnd /\ oldEnd < Js.length p
  /\ start - 1 <= newEnd /\ newEnd < Js.length q
  /\ Js.length p - oldEnd = Js.length q - newEnd
  /\ Js.slice_from p (oldEnd + 1) = Js.slice_from q (newEnd + 1)
  /\ (start <= oldEnd -> start <= newEnd -> Js.at_ p oldEnd <> Js.at_ q newEnd).

(** Section 4.2, steps 3 and 4: a delete when [delLen > 0], then an
    insert when the inserted slice is not empty. *)
Definition edit_script (p q : string) (start oldEnd newEnd : Z) : list operation :=
  (if 0 <? oldEnd - start + 1
   then [OpDelete start (oldEnd - start + 1) (Js.slice p start (oldEnd + 1))]
   else [])
  ++ (if 0 <? Js.length (Js.slice q start (newEnd + 1))
      then [OpInsert start (Js.slice q start (newEnd + 1))]
      else []).

(** Section 3, invariant 4. *)
Definition head_parent_in_manifest (fs : repo) : Prop :=
  match art_json fs with
  | None => True
  | Some head =>
      match active_parent head with
      | None => True
      | Some parent =>
          parent ∈ default [] (history_local fs !! active_branch head ≫= bd_manifest)
      end
  end.

(** Section 3, invariant 5, as the specification words it: the size of a
    part on disk is that of the document written to it. *)
Definition on_disk_size (part : Obj.t change) : Z :=
  Js.length (Json.stringify_pretty (Json.of_part part)).

Definition single_oversized (part : Obj.t change) : Prop :=
  exists file changeSet,
    part = [(file, changeSet)] /\ MAX_PART_SIZE < Pager.size_of changeSet.

Definition within_bound_on_disk (part : Obj.t change) : Prop :=
  on_disk_size part <= MAX_PART_SIZE \/ single_oversized part.

(** What the splitting loop accounts for: the sizes of the change values
    of a part, each serialized alone. *)
Definition accounted_size (part : Obj.t change) : Z :=
  fold_right (fun entry total => Pager.size_of (snd entry) + total) 0 part.

Definition within_bound_accounted (part : Obj.t change) : Prop :=
  accounted_size part <= MAX_PART_SIZE \/ single_oversized part.

(** Section 4.3, step 3 without the [break]: every commit of the manifest
    replayed, in order (a commit without a master is passed over). *)
Definition replay_chain (dir : branch_dir) (commits : list string)
    (state : Obj.t string) : Obj.t string :=
  fold_left
    (fun st hash =>
       match bd_masters dir !! hash with
       | Some commitMaster => apply_commit dir commitMaster st
       | None => st
       end)
    commits state.

(** Section 4.5, "dirty": a file of the working tree whose content is not
    the entry of the state under its path, or an entry of the state without
    a file. *)
Definition tree_differs (work : gmap string string) (state : Obj.t string) : Prop :=
  (exists file content, work !! file = Some content /\ Obj.get file state <> Some content)
  \/ (exists file, file ∈ Obj.keys state /\ work !! file = None).

(** Neither a file nor a directory of the working tree at [p]. *)
Definition path_absent (work : gmap string string) (p : string) : Prop :=
  p <> EmptyString
  /\ work !! p = None
  /\ forall q, is_Some (work !! q) -> ancestor_of p q = false.

(** The same as the code tests it: the differing file is looked for among
    the paths that do not begin with [.art], and an entry of the state is
    absent when its path is neither a file nor a directory. *)
Definition tree_differs_outside_art (work : gmap string string)
    (state : Obj.t string) : Prop :=
  (exists file content,
      Js.startsWith file ".art" = false
      /\ work !! file = Some content /\ Obj.get file state <> Some content)
  \/ (exists file, file ∈ Obj.keys state /\ path_absent work file).

(** The dirty-tree protection of a non-forced checkout, as the
    specification words it for one repository and one target: a tree that
    differs makes the call fail and leaves working tree, head state and
    branch manifests as they were; a tree that does not differ does not
    raise that error. *)
Definition checkout_guard_claim (fs : repo) (branchName : string) : Prop :=
  forall head state,
    art_json fs = Some head ->
    getStateByHash fs (active_branch head) (active_parent head) = Return state ->
    let r := checkout branchName false fs in
    (tree_differs (worktree fs) state ->
       fst r = Throw (Error dirty_message)
       /\ worktree (snd r) = worktree fs
       /\ art_json (snd r) = art_json fs
       /\ (forall name,
             history_local (snd r) !! name ≫= bd_manifest
             = history_local fs !! name ≫= bd_manifest)
       /\ (forall name,
             history_remote (snd r) !! name ≫= bd_manifest
             = history_remote fs !! name ≫= bd_manifest))
    /\ (~ tree_differs (worktree fs) state -> fst r <> Throw (Error dirty_message)).

(** Section 4.6, step 1: the most recent commit of the active manifest
    that the target manifest lists too, if there is one. *)
Definition last_common_commit (activeCommits targetCommits : list string)
    (ancestor : option string) : Prop :=
  match ancestor with
  | Some hash =>
      hash ∈ targetCommits
      /\ exists older newer,
           activeCommits = older ++ hash :: newer
           /\ Forall (fun h => h ∉ targetCommits) newer
  | None => Forall (fun h => h ∉ targetCommits) activeCommits
  end.

(** Section 4.6, step 2, [base]: the state of the active branch at the
    ancestor, and the empty state when there is none (an empty hash
    counts as none). *)
Definition state_at_ancestor (fs : repo) (activeBranch : string)
    (ancestor : option string) : outcome (Obj.t string) :=
  match ancestor with
  | Some hash =>
      if Js.falsy hash then Return []
      else getStateByHash fs activeBranch (Some hash)
  | None => Return []
  end.

(** The states that [merge] reads for the active and the target branch,
    where it can read them, name their files by plain paths: what the
    call writes, it writes to files of the working tree. *)
Definition plain_branch_states (fs : repo) (targetBranch : string) : Prop :=
  forall head targetCommits activeState targetState,
    art_json fs = Some head ->
    history_local fs !! targetBranch ≫= bd_manifest = Some targetCommits ->
    getStateByHash fs (active_branch head) (active_parent head) = Return activeState ->
    getStateByHash fs targetBranch (last targetCommits) = Return targetState ->
    Forall (fun p => plain_path p = true)
      (Obj.keys activeState ++ Obj.keys targetState).

(** Replay up to a hash that the manifest does not list, for one
    repository, branch and hash: no error, and the state of the whole
    chain. *)
Definition unknown_hash_claim (fs : repo) (branchName targetHash : string) : Prop :=
  forall rootMaster root dir commits,
    root_manifest fs = Some rootMaster ->
    load_root (root_parts fs) rootMaster [] = Return root ->
    history_local fs !! branchName = Some dir ->
    bd_manifest dir = Some commits ->
    targetHash ∉ commits ->
    getStateByHash fs branchName (Some targetHash)
    = Return (replay_chain dir commits root).

(** Invariant 5 for one saved mapping: every part file written is within
    the bound on disk, or holds a single oversized change. *)
Definition save_within_bound_on_disk (changes : Obj.t change) : Prop :=
  map_Forall (fun _ part => within_bound_on_disk part)
    (pd_parts (savePaginatedChanges changes)).

(** ** Scenarios of section 8 *)

Module Scenario.

Definition hello : string := "hello" +:+ Json.newline.
Definition Hello : string := "Hello" +:+ Json.newline.
Definition HELLO : string := "HELLO" +:+ Json.newline.
Definition Hola : string := "Hola" +:+ Json.newline.

Definition head_at (branchName : string) (parent : option string) : head_state :=
  {| active_branch := branchName; active_parent := parent;
     remote := EmptyString; configuration := [] |}.

Definition master (hash message : string) (timestamp : Z) (parent : option string)
    : commit_master :=
  {| cm_hash := hash; cm_message := message; cm_timestamp := timestamp;
     cm_parent := parent; cm_parts := Some [hash +:+ ".part.0.json"];
     cm_changes := None |}.

Definition no_ignore (relativePath : string) : bool := false.

(** S1: [a.txt] created with ["hello\n"] and committed as [c1] on [main];
    the working tree is a parameter. *)
Definition S1 (work : gmap string string) : repo :=
  {| art_json := Some (head_at "main" (Some "c1"));
     root_manifest := Some [];
     root_parts := ∅;
     history_local :=
       {[ "main" :=
            {| bd_manifest := Some ["c1"];
               bd_masters := {[ "c1" := master "c1" "first" 1 None ]};
               bd_parts := {[ "c1.part.0.json" := [("a.txt", CreateFile hello)] ]} |} ]};
     history_remote := {[ "main" := empty_branch_dir [] ]};
     stage := None;
     cache := ∅;
     worktree := work |}.

Definition S1_clean : repo := S1 {[ "a.txt" := hello ]}.
Definition S1_edited : repo := S1 {[ "a.txt" := Hello ]}.

Definition c2_changes : Obj.t change :=
  [("a.txt", Ops [OpDelete 0 1 "h"; OpInsert 0 "H"])].

(** S2: the edit to ["Hello\n"] committed as [c2]; the tree is clean. *)
Definition S2_main : branch_dir :=
  {| bd_manifest := Some ["c1"; "c2"];
     bd_masters := {[ "c1" := master "c1" "first" 1 None;
                      "c2" := master "c2" "cap" 2 (Some "c1") ]};
     bd_parts := {[ "c1.part.0.json" := [("a.txt", CreateFile hello)];
                    "c2.part.0.json" := c2_changes ]} |}.

Definition S2 : repo :=
  {| art_json := Some (head_at "main" (Some "c2"));
     root_manifest := Some [];
     root_parts := ∅;
     history_local := {[ "main" := S2_main ]};
     history_remote := {[ "main" := empty_branch_dir [] ]};
     stage := None;
     cache := ∅;
     worktree := {[ "a.txt" := Hello ]} |}.

(** S5, before the merge: [main] went on to ["Hola\n"] in [c3], branch
    [x] to ["HELLO\n"] in [c4]; [x] is checked out. *)
Definition S5 : repo :=
  {| art_json := Some (head_at "x" (Some "c4"));
     root_manifest := Some [];
     root_parts := ∅;
     history_local :=
       {[ "main" :=
            {| bd_manifest := Some ["c1"; "c2"; "c3"];
               bd_masters := {[ "c1" := master "c1" "first" 1 None;
                                "c2" := master "c2" "cap" 2 (Some "c1");
                                "c3" := master "c3" "hola" 3 (Some "c2") ]};
               bd_parts := {[ "c1.part.0.json" := [("a.txt", CreateFile hello)];
                              "c2.part.0.json" := c2_changes;
                              "c3.part.0.json" :=
                                [("a.txt", Ops (Delta.delta Hello Hola))] ]} |};
          "x" :=
            {| bd_manifest := Some ["c1"; "c2"; "c4"];
               bd_masters := {[ "c1" := master "c1" "first" 1 None;
                                "c2" := master "c2" "cap" 2 (Some "c1");
                                "c4" := master "c4" "shout" 4 (Some "c2") ]};
               bd_parts := {[ "c1.part.0.json" := [("a.txt", CreateFile hello)];
                              "c2.part.0.json" := c2_changes;
                              "c4.part.0.json" :=
                                [("a.txt", Ops (Delta.delta Hello HELLO))] ]} |} ]};
     history_remote :=
       {[ "main" := empty_branch_dir []; "x" := empty_branch_dir ["c1"; "c2"] ]};
     stage := None;
     cache := ∅;
     worktree := {[ "a.txt" := HELLO ]} |}.

(** The blob that the merge of S5 writes to [a.txt]. *)
Definition S5_conflict : string :=
  "<<<<<<< active" +:+ Json.newline +:+ "HELLO" +:+ Json.newline +:+ Json.newline
  +:+ "=======" +:+ Json.newline +:+ "Hola" +:+ Json.newline +:+ Json.newline
  +:+ ">>>>>>> main".

(** A stand-in for the SHA-1 digest, for runs of [commit]. *)
Definition toy_sha1 (input : string) : string := "c9".

(** A string of [n] letters [x]. *)
Definition xs (n : N) : string := N.iter n (String "x"%char) EmptyString.

(** Two new files whose change values serialize to 16,000,000 characters
    each. *)
Definition two_large_files : Obj.t change :=
  [("a", CreateFile (xs 15999966)); ("b", CreateFile (xs 15999966))].

End Scenario.

(** ** Invariants and auxiliary notions used in the proofs *)

(** What the second loop maintains: the two ends stay aligned from the
    back, and everything after them agrees. *)
Definition suffix_inv (p q : string) (s oe ne : Z) : Prop :=
  s - 1 <= oe /\ oe < Js.length p /\ s - 1 <= ne /\ ne < Js.length q
  /\ Js.length p - oe = Js.length q - ne
  /\ (forall k, 1 <= k -> oe + k < Js.length p ->
        Js.at_ p (oe + k) = Js.at_ q (ne + k)).

(** A string that [JSON.stringify] quotes without escapes. *)
Definition plain (s : string) : Prop := Json.quote_body s = s.

(** What the splitting loop maintains: the parts written are within the
    accounted bound, and so is the pending part. *)
Definition pager_inv (st : Pager.t) : Prop :=
  Forall (fun part => within_bound_accounted (snd part)) (Pager.parts st)
  /\ accounted_size (Pager.currentPartChanges st) <= Pager.currentSize st
  /\ (Pager.currentPartChanges st = [] -> Pager.currentSize st = 0)
  /\ (Pager.currentSize st <= MAX_PART_SIZE
      \/ single_oversized (Pager.currentPartChanges st)).

(** All entries a pager holds, written or pending, in order. *)
Definition pager_content (st : Pager.t) : Obj.t change :=
  concat (map snd (Pager.parts st)) ++ Pager.currentPartChanges st.

(** The parts written so far are numbered from 0. *)
Definition pager_names (name : nat -> string) (st : Pager.t) : Prop :=
  map fst (Pager.parts st) = map name (seq 0 (List.length (Pager.parts st))).

(** The change that one iteration of the merge loop stages for a path
    ([merge_file], without the effect on the working tree). *)
Definition merge_change (targetBranch : string)
    (baseState activeState targetState : Obj.t string) (filePath : string)
    : option change :=
  let base := Obj.get filePath baseState in
  let active := Obj.get filePath activeState in
  let target := Obj.get filePath targetState in
  if bool_decide (active = target) then None
  else if bool_decide (base = active) && negb (bool_decide (base = target)) then
    match target with
    | None => Some DeleteFile
    | Some content => Some (CreateFile content)
    end
  else if negb (bool_decide (base = active)) && negb (bool_decide (base = target))
          && negb (bool_decide (active = target)) then
    Some (CreateFile (conflict_content active target targetBranch))
  else None.

Definition merge_entries (targetBranch : string)
    (baseState activeState targetState : Obj.t string) (files : list string)
    : Obj.t change :=
  omap (fun filePath =>
          pair filePath <$> merge_change targetBranch baseState activeState targetState filePath)
       files.

Ltac split_conj := repeat match goal with |- _ /\ _ => split end.
Ltac by_eval := vm_compute; reflexivity.

(** Lengths of the closed pieces of a serialization are computed; the
    string [s] stays symbolic. *)
Ltac literal_lengths s :=
  repeat match goal with
    | |- context [Js.length ?c] =>
        lazymatch c with
        | context [s] => fail
        | _ => let v := eval vm_compute in (Js.length c) in
               progress change (Js.length c) with v
        end
    end.

(** ** Notions used by the further properties *)

(** An operation that is applied without clamping: its positions lie
    inside the contents, it is not empty, and the content it records is
    the slice it stands for. *)
Definition operation_in_bounds (previousContent currentContent : string)
    (op : operation) : Prop :=
  match op with
  | OpDelete position length content =>
      0 <= position /\ 0 < length
      /\ position + length <= Js.length previousContent
      /\ content = Js.slice previousContent position (position + length)
  | OpInsert position content =>
      0 <= position /\ position <= Js.length previousContent
      /\ 0 < Js.length content
      /\ position + Js.length content <= Js.length currentContent
      /\ content = Js.slice currentContent position (position + Js.length content)
  end.

(** A name that [branch] accepts. *)
Definition valid_branch_name (name : string) : Prop :=
  name <> EmptyString
  /\ illegalRegularExpression name = false
  /\ controlRegularExpression name = false
  /\ reservedRegularExpression name = false.

(** What a copy from the local directory [source] leaves in the new
    directory: nothing but files of [source]. *)
Definition copied_from (source destination : branch_dir) : Prop :=
  bd_masters destination ⊆ bd_masters source
  /\ bd_parts destination ⊆ bd_parts source.

(** The part files that a master lists are the same in both directories. *)
Definition parts_agree (source destination : branch_dir) (m : commit_master) : Prop :=
  Forall (fun p => bd_parts destination !! p = bd_parts source !! p)
    (default [] (cm_parts m)).

(** The part files of a commit added to a branch directory. *)
Definition with_parts (written : list (string * Obj.t change)) (dir : branch_dir)
    : branch_dir :=
  mk_branch_dir (bd_manifest dir) (bd_masters dir)
    (fold_left (fun files part => <[fst part := snd part]> files) written (bd_parts dir)).

(** The head of the branch is at the last commit of its manifest. *)
Definition head_at_tip (head : head_state) (commits : list string) : Prop :=
  NoDup commits
  /\ last commits = active_parent head
  /\ active_parent head <> Some EmptyString.

(** The change that [add] stages for a file, from its committed and its
    current content. *)
Definition staged_change (previous : option string) (currentContent : string)
    : option change :=
  match previous with
  | None => Some (CreateFile currentContent)
  | Some previousContent =>
      if decide (currentContent = previousContent) then None
      else Some (Ops (Delta.delta previousContent currentContent))
  end.

(** The three classes of [status], as conditions on one file of the
    working tree. *)
Definition is_untracked (shouldIgnore : string -> bool)
    (stagedFiles : Obj.t change) (activeState : Obj.t string)
    (entry : string * string) : bool :=
  negb (is_internal (fst entry))
  && negb (has_member (fst entry) stagedFiles)
  && negb (truthy_member (fst entry) activeState)
  && negb (shouldIgnore (fst entry)).

Definition is_ignored (shouldIgnore : string -> bool)
    (stagedFiles : Obj.t change) (activeState : Obj.t string)
    (entry : string * string) : bool :=
  negb (is_internal (fst entry))
  && negb (has_member (fst entry) stagedFiles)
  && negb (truthy_member (fst entry) activeState)
  && shouldIgnore (fst entry).

Definition is_modified (stagedFiles : Obj.t change) (activeState : Obj.t string)
    (entry : string * string) : bool :=
  negb (is_internal (fst entry))
  && negb (has_member (fst entry) stagedFiles)
  && truthy_member (fst entry) activeState
  && negb (bool_decide (Some (snd entry) = Obj.get (fst entry) activeState)).

(** [entry.startsWith('stash_')] *)
Definition is_stash (entry : string) : bool := Js.startsWith entry "stash_".

(** ** Further scenarios *)

(** The directory of [main] in S1. *)
Definition S1_main : branch_dir :=
  {| bd_manifest := Some ["c1"];
     bd_masters := {[ "c1" := Scenario.master "c1" "first" 1 None ]};
     bd_parts := {[ "c1.part.0.json" := [("a.txt", CreateFile Scenario.hello)] ]} |}.

(** A directory that became a file: [main] and [x] share [c1], which
    created [docs/readme.md]; [main] went on, in [c6], to delete that
    file and to create the file [docs]; [x] is checked out at [c1]. *)
Definition S_docs : repo :=
  {| art_json := Some (Scenario.head_at "x" (Some "c1"));
     root_manifest := Some [];
     root_parts := ∅;
     history_local :=
       {[ "main" :=
            {| bd_manifest := Some ["c1"; "c6"];
               bd_masters := {[ "c1" := Scenario.master "c1" "first" 1 None;
                                "c6" := Scenario.master "c6" "docs" 6 (Some "c1") ]};
               bd_parts := {[ "c1.part.0.json" := [("docs/readme.md", CreateFile "r")];
                              "c6.part.0.json" :=
                                [("docs/readme.md", DeleteFile);
                                 ("docs", CreateFile "D")] ]} |};
          "x" :=
            {| bd_manifest := Some ["c1"];
               bd_masters := {[ "c1" := Scenario.master "c1" "first" 1 None ]};
               bd_parts :=
                 {[ "c1.part.0.json" := [("docs/readme.md", CreateFile "r")] ]} |} ]};
     history_remote := ∅;
     stage := None;
     cache := ∅;
     worktree := {[ "docs/readme.md" := "r" ]} |}.

(** A stash that holds the edit of [a.txt] from ["hello\n"] to
    ["Hello\n"], and S1 with that stash in its cache. *)
Definition stash_of_the_edit : paged_dir :=
  {| pd_manifest := Some ["part.0.json"];
     pd_parts := {[ "part.0.json" := Scenario.c2_changes ]} |}.

Definition S1_stashed : repo :=
  {| art_json := Some (Scenario.head_at "main" (Some "c1"));
     root_manifest := Some [];
     root_parts := ∅;
     history_local := {[ "main" := S1_main ]};
     history_remote := {[ "main" := empty_branch_dir [] ]};
     stage := None;
     cache := {[ "stash_1700000000000" := stash_of_the_edit ]};
     worktree := {[ "a.txt" := Scenario.hello ]} |}.

(** S4, before the merge: [main] went on to add [b.txt] in [c5]; branch
    [x], created at [c2], is checked out and has no commit of its own. *)
Definition S4 : repo :=
  {| art_json := Some (Scenario.head_at "x" (Some "c2"));
     root_manifest := Some [];
     root_parts := ∅;
     history_local :=
       {[ "main" :=
            {| bd_manifest := Some ["c1"; "c2"; "c5"];
               bd_masters := {[ "c1" := Scenario.master "c1" "first" 1 None;
                                "c2" := Scenario.master "c2" "cap" 2 (Some "c1");
                                "c5" := Scenario.master "c5" "add b" 5 (Some "c2") ]};
               bd_parts := {[ "c1.part.0.json" := [("a.txt", CreateFile Scenario.hello)];
                              "c2.part.0.json" := Scenario.c2_changes;
                              "c5.part.0.json" := [("b.txt", CreateFile "B")] ]} |};
          "x" := Scenario.S2_main ]};
     history_remote :=
       {[ "main" := empty_branch_dir []; "x" := empty_branch_dir ["c1"; "c2"] ]};
     stage := None;
     cache := ∅;
     worktree := {[ "a.txt" := Scenario.Hello ]} |}.

(** * Proofs *)

(** ** Strings as lists of characters *)

Section StringFacts.

Local Abbreviation chars := list_ascii_of_string.

Lemma chars_app a b : chars (a +:+ b) = chars a ++ chars b.
Proof. induction a as [|c a IH]; simpl; [done | by rewrite IH]. Qed.

Lemma chars_length s : List.length (chars s) = String.length s.
Proof. induction s as [|c s IH]; simpl; [done | by rewrite IH]. Qed.

Lemma chars_get s n : String.get n s = chars s !! n.
Proof.
  revert n; induction s as [|c s IH]; intros [|n]; simpl; try done.
Qed.

Lemma chars_substring s n m :
  chars (String.substring n m s) = take m (drop n (chars s)).
Proof.
  revert n m; induction s as [|c s IH]; intros [|n] [|m]; simpl;
    rewrite ?IH; done.
Qed.

Lemma chars_inj a b : chars a = chars b -> a = b.
Proof.
  intros H. rewrite <- (string_of_list_ascii_of_string a),
    <- (string_of_list_ascii_of_string b). by rewrite H.
Qed.

Lemma string_length_app a b :
  String.length (a +:+ b) = (String.length a + String.length b)%nat.
Proof. rewrite <- !chars_length, chars_app. apply length_app. Qed.

Lemma js_length_app a b : Js.length (a +:+ b) = Js.length a + Js.length b.
Proof. unfold Js.length. rewrite string_length_app. lia. Qed.

Lemma js_length_nonneg s : 0 <= Js.length s.
Proof. unfold Js.length. lia. Qed.

Lemma js_at_chars s i : 0 <= i -> Js.at_ s i = chars s !! Z.to_nat i.
Proof.
  intros Hi. unfold Js.at_. destruct (Z.ltb_spec i 0); [lia|]. apply chars_get.
Qed.

(** [slice] with resolved indices, as a sublist of the characters. *)
Lemma js_slice_chars s a b :
  0 <= a -> a <= b -> b <= Js.length s ->
  chars (Js.slice s a b) = take (Z.to_nat (b - a)) (drop (Z.to_nat a) (chars s)).
Proof.
  intros Ha Hab Hb. unfold Js.slice, Js.clamp.
  destruct (Z.ltb_spec a 0); [lia|]. destruct (Z.ltb_spec b 0); [lia|].
  rewrite chars_substring. repeat f_equal; lia.
Qed.

Lemma js_slice_from_chars s a :
  0 <= a -> a <= Js.length s ->
  chars (Js.slice_from s a) = drop (Z.to_nat a) (chars s).
Proof.
  intros Ha Hb. unfold Js.slice_from. rewrite js_slice_chars by lia.
  apply take_ge. rewrite length_drop, chars_length. unfold Js.length in *. lia.
Qed.

Lemma js_slice_length s a b :
  0 <= a -> a <= b -> b <= Js.length s -> Js.length (Js.slice s a b) = b - a.
Proof.
  intros Ha Hab Hb. unfold Js.length at 1.
  rewrite <- chars_length, js_slice_chars by done.
  rewrite length_take, length_drop, chars_length. unfold Js.length in *. lia.
Qed.


(** *** The two scans *)

Lemma scan_prefix_spec fuel p q s :
  0 <= s -> s <= Js.length p -> s <= Js.length q ->
  (forall i, 0 <= i < s -> Js.at_ p i = Js.at_ q i) ->
  let r := Delta.scan_prefix fuel p q s in
  s <= r /\ r <= Js.length p /\ r <= Js.length q
  /\ (forall i, 0 <= i < r -> Js.at_ p i = Js.at_ q i)
  /\ (Js.length p - s <= Z.of_nat fuel -> Delta.prefix_guard p q r = false).
Proof.
  revert s; induction fuel as [|fuel IH]; intros s Hs Hp Hq Heq; simpl.
  - repeat split; try lia; try done.
    intros Hf. unfold Delta.prefix_guard.
    destruct (Z.ltb_spec s (Js.length p)); [lia | done].
  - destruct (Delta.prefix_guard p q s) eqn:Hg.
    + unfold Delta.prefix_guard in Hg.
      apply andb_prop in Hg as [Hg Hc]. apply andb_prop in Hg as [H1 H2].
      apply Z.ltb_lt in H1, H2. apply bool_decide_eq_true in Hc.
      destruct (IH (s + 1)) as (I1 & I2 & I3 & I4 & I5); try lia.
      { intros i Hi. destruct (decide (i = s)) as [->|]; [done | apply Heq; lia]. }
      repeat split; try lia; try done. intros Hf. apply I5. lia.
    + repeat split; try lia; done.
Qed.

Lemma scan_suffix_spec fuel p q s oe ne :
  0 <= s -> suffix_inv p q s oe ne ->
  let r := Delta.scan_suffix fuel p q s oe ne in
  suffix_inv p q s (fst r) (snd r)
  /\ (oe - s + 1 <= Z.of_nat fuel ->
      Delta.suffix_guard p q s (fst r) (snd r) = false).
Proof.
  revert oe ne; induction fuel as [|fuel IH]; intros oe ne Hs Hinv; simpl.
  - split; [done|]. intros Hf. unfold Delta.suffix_guard.
    destruct Hinv as (? & ? & ? & ? & ? & ?).
    destruct (Z.geb_spec oe s); [lia | done].
  - destruct (Delta.suffix_guard p q s oe ne) eqn:Hg; [|by split].
    unfold Delta.suffix_guard in Hg.
    apply andb_prop in Hg as [Hg Hc]. apply andb_prop in Hg as [H1 H2].
    apply Z.geb_le in H1, H2. apply bool_decide_eq_true in Hc.
    destruct Hinv as (J1 & J2 & J3 & J4 & J5 & J6).
    destruct (IH (oe - 1) (ne - 1)) as [I1 I2]; [done | |].
    { repeat split; try lia. intros k Hk Hlt.
      destruct (decide (k = 1)) as [->|].
      - by replace (oe - 1 + 1) with oe by lia; replace (ne - 1 + 1) with ne by lia.
      - replace (oe - 1 + k) with (oe + (k - 1)) by lia.
        replace (ne - 1 + k) with (ne + (k - 1)) by lia. apply J6; lia. }
    split; [done|]. intros Hf. apply I2. lia.
Qed.

Lemma start_of_spec p q : longest_common_prefix p q (Delta.start_of p q).
Proof.
  unfold Delta.start_of.
  destruct (scan_prefix_spec (String.length p) p q 0) as (H1 & H2 & H3 & H4 & H5);
    try apply js_length_nonneg; try lia.
  set (s := Delta.scan_prefix _ _ _ _) in *.
  repeat split; try done.
  - apply chars_inj. rewrite !js_slice_chars by lia.
    rewrite !drop_0, Z.sub_0_r. apply list_eq; intros j.
    destruct (decide (j < Z.to_nat s)%nat) as [Hj|Hj].
    + rewrite !lookup_take_lt by done.
      specialize (H4 (Z.of_nat j)). rewrite !js_at_chars, Nat2Z.id in H4 by lia.
      apply H4; lia.
    + rewrite !lookup_take_ge by lia. done.
  - intros Hp Hq Heq.
    assert (Delta.prefix_guard p q s = false) as Hg.
    { apply H5. unfold Js.length. lia. }
    unfold Delta.prefix_guard, Js.strict_eq in Hg.
    rewrite (bool_decide_eq_true_2 _ Heq) in Hg.
    destruct (Z.ltb_spec s (Js.length p)); [|lia].
    destruct (Z.ltb_spec s (Js.length q)); [done|lia].
Qed.

Lemma ends_of_spec p q :
  common_suffix_ends p q (Delta.start_of p q)
    (fst (Delta.ends_of p q)) (snd (Delta.ends_of p q)).
Proof.
  destruct (start_of_spec p q) as (S1 & S2 & S3 & _).
  unfold Delta.ends_of. set (s := Delta.start_of p q) in *.
  destruct (scan_suffix_spec (String.length p) p q s
              (Js.length p - 1) (Js.length q - 1)) as [Hinv Hexit]; [done | |].
  { repeat split; intros; lia. }
  set (r := Delta.scan_suffix _ _ _ _ _ _) in *.
  destruct Hinv as (J1 & J2 & J3 & J4 & J5 & J6).
  repeat split; try done.
  - apply chars_inj. rewrite !js_slice_from_chars by lia.
    apply list_eq; intros j. rewrite !lookup_drop.
    destruct (decide (fst r + 1 + Z.of_nat j < Js.length p)) as [Hj|Hj].
    + specialize (J6 (1 + Z.of_nat j)).
      rewrite !js_at_chars in J6 by lia.
      replace (Z.to_nat (fst r + 1) + j)%nat
        with (Z.to_nat (fst r + (1 + Z.of_nat j))) by lia.
      replace (Z.to_nat (snd r + 1) + j)%nat
        with (Z.to_nat (snd r + (1 + Z.of_nat j))) by lia.
      apply J6; lia.
    + rewrite !lookup_ge_None_2; [done | |];
        rewrite chars_length; unfold Js.length in *; lia.
  - intros Ho Hn Heq.
    assert (Delta.suffix_guard p q s (fst r) (snd r) = false) as Hg.
    { apply Hexit. unfold Js.length. lia. }
    unfold Delta.suffix_guard, Js.strict_eq in Hg.
    rewrite (bool_decide_eq_true_2 _ Heq) in Hg.
    destruct (Z.geb_spec (fst r) s); [|lia].
    destruct (Z.geb_spec (snd r) s); [done|lia].
Qed.

Lemma delta_edit_script p q :
  Delta.delta p q =
  edit_script p q (Delta.start_of p q)
    (fst (Delta.ends_of p q)) (snd (Delta.ends_of p q)).
Proof.
  unfold Delta.delta, edit_script.
  destruct (Delta.ends_of p q) as [oe ne]; simpl.
  rewrite !Z.gtb_ltb. by destruct (0 <? _), (0 <? _).
Qed.

(** Replaying the edit script of two aligned strings. *)
Lemma edit_script_replay p q s oe ne :
  longest_common_prefix p q s -> common_suffix_ends p q s oe ne ->
  Replay.apply_operations (edit_script p q s oe ne) p = q.
Proof.
  intros (S1 & S2 & S3 & S4 & _) (E1 & E2 & E3 & E4 & E5 & E6 & _).
  apply (f_equal chars) in S4, E6.
  rewrite !js_slice_chars, !drop_0, Z.sub_0_r in S4 by lia.
  rewrite !js_slice_from_chars in E6 by lia.
  (* after the optional delete *)
  set (r1 := Js.slice p 0 s +:+ Js.slice_from p (oe + 1)).
  assert (chars r1 = take (Z.to_nat s) (chars p) ++ drop (Z.to_nat (oe + 1)) (chars p))
    as Hr1.
  { unfold r1. rewrite chars_app, js_slice_chars, js_slice_from_chars by lia.
    by rewrite drop_0, Z.sub_0_r. }
  assert (Js.length r1 = s + (Js.length p - (oe + 1))) as Hl1.
  { unfold r1. rewrite js_length_app, js_slice_length by lia.
    unfold Js.slice_from. rewrite js_slice_length by lia. lia. }
  assert (Replay.apply_operations
            (if 0 <? oe - s + 1
             then [OpDelete s (oe - s + 1) (Js.slice p s (oe + 1))] else []) p = r1)
    as Hdel.
  { destruct (Z.ltb_spec 0 (oe - s + 1)); simpl.
    - unfold r1. by replace (s + (oe - s + 1)) with (oe + 1) by lia.
    - apply chars_inj. rewrite Hr1. replace (oe + 1) with s by lia.
      by rewrite take_drop. }
  unfold edit_script, Replay.apply_operations in *.
  rewrite fold_left_app, Hdel.
  assert (chars (Js.slice q s (ne + 1))
          = take (Z.to_nat (ne + 1 - s)) (drop (Z.to_nat s) (chars q))) as Hins.
  { rewrite js_slice_chars by lia. done. }
  assert (chars q = take (Z.to_nat s) (chars p)
                    ++ chars (Js.slice q s (ne + 1))
                    ++ drop (Z.to_nat (oe + 1)) (chars p)) as Hq.
  { rewrite Hins, S4, E6.
    rewrite <- (take_drop (Z.to_nat s) (chars q)) at 1. f_equal.
    rewrite <- (take_drop (Z.to_nat (ne + 1 - s)) (drop (Z.to_nat s) (chars q))) at 1.
    f_equal. rewrite drop_drop. f_equal. lia. }
  apply chars_inj. rewrite Hq.
  assert (length (take (Z.to_nat s) (chars p)) = Z.to_nat s) as Hlen.
  { rewrite length_take, chars_length. unfold Js.length in *. lia. }
  destruct (Z.ltb_spec 0 (Js.length (Js.slice q s (ne + 1)))) as [Hpos|Hpos]; simpl.
  - rewrite !chars_app, js_slice_chars, js_slice_from_chars by lia.
    rewrite drop_0, Z.sub_0_r, Hr1.
    rewrite take_app_length' by done. rewrite drop_app_length' by done. done.
  - rewrite Hr1. f_equal.
    assert (String.length (Js.slice q s (ne + 1)) = 0%nat) as H0.
    { unfold Js.length in Hpos. lia. }
    rewrite <- chars_length in H0. apply nil_length_inv in H0. by rewrite H0.
Qed.

Lemma delta_identical content : Delta.delta content content = [].
Proof.
  rewrite delta_edit_script.
  destruct (start_of_spec content content) as (S1 & S2 & _ & _ & S5).
  destruct (ends_of_spec content content) as (E1 & E2 & E3 & E4 & _).
  set (s := Delta.start_of content content) in *.
  destruct (Delta.ends_of content content) as [oe ne]; simpl in *.
  assert (s = Js.length content) as Hs.
  { destruct (decide (s < Js.length content)); [|lia]. by destruct S5. }
  unfold edit_script.
  destruct (Z.ltb_spec 0 (oe - s + 1)); [lia|].
  rewrite js_slice_length by lia.
  destruct (Z.ltb_spec 0 (ne + 1 - s)); [lia | done].
Qed.

End StringFacts.

(** ** The delta engine and its replay *)

(** C1. For every pair of strings [p] and [q], applying to [p] the
    operations that the delta engine of [add] produces on [(p, q)], in list
    order and with the slicing of [getStateByHash] (a delete removes
    [length] characters at [position], an insert puts [content] at
    [position]), yields exactly [q]. *)
Theorem delta_round_trip (p q : string) :
  Replay.apply_operations (Delta.delta p q) p = q.
Proof.
  rewrite delta_edit_script.
  apply edit_script_replay; [apply start_of_spec | apply ends_of_spec].
Qed.

(** C2. The delta engine emits exactly a delete [{position: start,
    length: oldEnd - start + 1}] when that length is positive, followed by
    an insert [{position: start, content: current.slice(start, newEnd + 1)}]
    when that slice is not empty, where [start] is the length of the
    longest common prefix and [oldEnd], [newEnd] are the ends found by the
    common-suffix scan; identical strings give no operation; and [add] on
    ["hello\n"] changed to ["Hello\n"] stages a delete of length 1 at
    position 0 followed by an insert of ["H"] at position 0. *)
Theorem delta_emits_delete_then_insert :
  (forall previousContent currentContent : string,
      exists start oldEnd newEnd,
        longest_common_prefix previousContent currentContent start
        /\ common_suffix_ends previousContent currentContent start oldEnd newEnd
        /\ Delta.delta previousContent currentContent
           = edit_script previousContent currentContent start oldEnd newEnd)
  /\ (forall content : string, Delta.delta content content = [])
  /\ getStagedChanges (snd (add Scenario.no_ignore "a.txt" Scenario.S1_edited))
     = [("a.txt", Ops [OpDelete 0 1 "h"; OpInsert 0 "H"])].
Proof.
  split; [|split].
  - intros p q.
    exists (Delta.start_of p q), (fst (Delta.ends_of p q)), (snd (Delta.ends_of p q)).
    split; [apply start_of_spec|]. split; [apply ends_of_spec|].
    apply delta_edit_script.
  - apply delta_identical.
  - vm_compute. reflexivity.
Qed.

(** ** The state reconstructor *)

Lemma replay_without_target dir targetHash commits state :
  targetHash ∉ commits ->
  replay dir (Some targetHash) commits state = replay_chain dir commits state.
Proof.
  revert state; induction commits as [|hash rest IH]; intros state Hnotin; [done|].
  apply not_elem_of_cons in Hnotin as [Hne Hrest]. simpl.
  destruct (bd_masters dir !! hash) as [commitMaster|]; [|by apply IH].
  rewrite bool_decide_eq_false_2 by congruence. by apply IH.
Qed.

Lemma replay_to_last dir targetHash commits state :
  NoDup commits -> last commits = Some targetHash ->
  replay dir (Some targetHash) commits state = replay_chain dir commits state.
Proof.
  revert state; induction commits as [|hash rest IH]; intros state Hnd Hlast; [done|].
  apply NoDup_cons in Hnd as [Hfresh Hnd]. simpl.
  destruct rest as [|next rest'].
  - simpl in Hlast. injection Hlast as ->.
    destruct (bd_masters dir !! targetHash); [|done].
    by rewrite bool_decide_eq_true_2.
  - assert (last (next :: rest') = Some targetHash) as Hlast' by done.
    assert (hash <> targetHash) as Hne.
    { intros ->. apply Hfresh. by apply last_Some_elem_of. }
    destruct (bd_masters dir !! hash); [|by apply IH].
    rewrite bool_decide_eq_false_2 by congruence. by apply IH.
Qed.

Lemma load_root_throws files partNames state e :
  load_root files partNames state = Throw e -> exists path, e = ENOENT path.
Proof.
  revert state; induction partNames as [|partName rest IH]; intros state; simpl; [done|].
  destruct (files !! partName); [apply IH|]. intros [= <-]. eauto.
Qed.

Lemma getStateByHash_throws fs branchName targetHash e :
  getStateByHash fs branchName targetHash = Throw e -> exists path, e = ENOENT path.
Proof.
  unfold getStateByHash.
  destruct (root_manifest fs); [|done].
  destruct (history_local fs !! branchName) as [dir|]; [|done].
  destruct (bd_manifest dir); [|done].
  destruct (load_root _ _ _) eqn:Hroot.
  - by destruct (Js.falsy_opt targetHash).
  - intros [= <-]. by eapply load_root_throws.
Qed.




(** ** The dirty-tree check of [checkout] *)

Lemma tree_paths_elem (work : gmap string string) p :
  p ∈ tree_paths work <-> is_Some (work !! p).
Proof.
  unfold tree_paths. rewrite list_elem_of_In, in_map_iff. split.
  - intros ([q content] & Hfst & Hin). cbn in Hfst. subst q.
    apply list_elem_of_In, elem_of_map_to_list in Hin. by exists content.
  - intros [content Hp]. exists (p, content). split; [done|].
    by apply list_elem_of_In, elem_of_map_to_list.
Qed.

Lemma has_below_false (work : gmap string string) p :
  has_below work p = false
  <-> forall q, is_Some (work !! q) -> ancestor_of p q = false.
Proof.
  unfold has_below. split.
  - intros Hnone q Hq. destruct (ancestor_of p q) eqn:Hanc; [|done].
    assert (existsb (ancestor_of p) (tree_paths work) = true) as Habs; [|congruence].
    apply existsb_exists. exists q. split; [|done].
    by apply list_elem_of_In, tree_paths_elem.
  - intros Hall. destruct (existsb _ _) eqn:Hex; [|done].
    apply existsb_exists in Hex as (q & Hin & Hanc).
    apply list_elem_of_In, tree_paths_elem in Hin. by rewrite (Hall q Hin) in Hanc.
Qed.

Lemma below_a_file_false (work : gmap string string) p :
  below_a_file work p = false
  <-> forall d, is_Some (work !! d) -> ancestor_of d p = false.
Proof.
  unfold below_a_file. split.
  - intros Hnone d Hd. destruct (ancestor_of d p) eqn:Hanc; [|done].
    assert (existsb (fun d => ancestor_of d p) (tree_paths work) = true) as Habs;
      [|congruence].
    apply existsb_exists. exists d. split; [|done].
    by apply list_elem_of_In, tree_paths_elem.
  - intros Hall. destruct (existsb _ _) eqn:Hex; [|done].
    apply existsb_exists in Hex as (d & Hin & Hanc).
    apply list_elem_of_In, tree_paths_elem in Hin. by rewrite (Hall d Hin) in Hanc.
Qed.

Lemma files_below_nil (work : gmap string string) p :
  p <> EmptyString ->
  files_below work p = [] <-> has_below work p = false.
Proof.
  intros Hne. rewrite has_below_false. unfold files_below.
  assert (Js.falsy p = false) as -> by by destruct p.
  cbn [orb]. split.
  - intros Hnil q [content Hq]. destruct (ancestor_of p q) eqn:Hanc; [|done].
    assert ((q, content) ∈ ([] : list (string * string))) as Habs;
      [|by apply elem_of_nil in Habs].
    rewrite <- Hnil. apply list_elem_of_In, filter_In. split; [|done].
    by apply list_elem_of_In, elem_of_map_to_list.
  - intros Hall.
    destruct (List.filter _ _) as [|[q content] rest] eqn:Hfilter; [done|].
    assert (In (q, content) (List.filter
              (fun entry : string * string => Js.startsWith (fst entry) (p +:+ "/"))
              (map_to_list work))) as Hin by (rewrite Hfilter; by left).
    apply filter_In in Hin as [Hin Hanc].
    apply list_elem_of_In, elem_of_map_to_list in Hin. cbn [fst] in Hanc.
    unfold ancestor_of in Hall. rewrite (Hall q) in Hanc; [done | by exists content].
Qed.

Lemma path_exists_false (work : gmap string string) p :
  path_exists work p = false <-> path_absent work p.
Proof.
  unfold path_exists, is_directory, file_exists, path_absent. split.
  - intros Hnone. apply orb_false_iff in Hnone as [Hfile Hdir].
    rewrite Hfile in Hdir. cbn [negb andb] in Hdir.
    apply orb_false_iff in Hdir as [Hroot Hbelow].
    assert (p <> EmptyString) as Hne by (intros ->; done).
    apply negb_false_iff, Nat.eqb_eq, length_zero_iff_nil in Hbelow.
    apply (proj1 (files_below_nil work p Hne)) in Hbelow.
    pose proof (proj1 (has_below_false work p) Hbelow) as Hnofile.
    apply bool_decide_eq_false in Hfile. split_conj; [done | | done].
    destruct (work !! p) eqn:Hp; [|done]. exfalso. apply Hfile. by eexists.
  - intros (Hne & Hfile & Hbelow). rewrite Hfile.
    rewrite bool_decide_eq_false_2 by (by intros [? ?]). cbn [orb negb andb].
    apply (proj2 (has_below_false work p)) in Hbelow.
    apply (proj2 (files_below_nil work p Hne)) in Hbelow. rewrite Hbelow.
    by destruct p.
Qed.

Lemma is_dirty_spec work state :
  is_dirty work state = true <-> tree_differs_outside_art work state.
Proof.
  unfold is_dirty.
  destruct (existsb _ (List.filter _ _)) eqn:Hfirst; cbn [negb].
  - split; [intros _ | done]. left.
    apply existsb_exists in Hfirst as ([file content] & Hin & Hne).
    apply filter_In in Hin as [Hin Hart]. apply list_elem_of_In in Hin.
    apply elem_of_map_to_list in Hin. cbn [fst snd] in *.
    exists file, content. split_conj; [by apply negb_true_iff in Hart | done |].
    apply negb_true_iff, bool_decide_eq_false in Hne. congruence.
  - split.
    + intros Hsecond. right.
      apply existsb_exists in Hsecond as (file & Hin & Hne).
      exists file. split; [by apply list_elem_of_In|].
      by apply path_exists_false, negb_true_iff.
    + intros [(file & content & Hart & Hfile & Hne) | (file & Hkey & Habsent)].
      * assert (existsb
          (fun entry => negb (bool_decide (Some (snd entry) = Obj.get (fst entry) state)))
          (List.filter (fun entry => negb (Js.startsWith (fst entry) ".art"))
             (map_to_list work)) = true) as Habs; [|congruence].
        apply existsb_exists. exists (file, content). split.
        -- apply filter_In. split; [|by simpl; rewrite Hart].
           apply list_elem_of_In. by apply elem_of_map_to_list.
        -- simpl. rewrite bool_decide_eq_false_2; [done | congruence].
      * apply existsb_exists. exists file. split; [by apply list_elem_of_In|].
        apply negb_true_iff. by apply path_exists_false.
Qed.

Lemma getStateByHash_ext fs fs' branchName targetHash :
  root_manifest fs' = root_manifest fs ->
  root_parts fs' = root_parts fs ->
  history_local fs' !! branchName = history_local fs !! branchName ->
  getStateByHash fs' branchName targetHash = getStateByHash fs branchName targetHash.
Proof. intros Hroot Hparts Hdir. unfold getStateByHash. by rewrite Hroot, Hparts, Hdir. Qed.

(** What [branch] leaves behind when it creates a branch. *)
Lemma branch_creates name fs head :
  name <> EmptyString ->
  illegalRegularExpression name = false ->
  controlRegularExpression name = false ->
  reservedRegularExpression name = false ->
  history_local fs !! name = None ->
  art_json fs = Some head ->
  exists created remotes,
    branch (Some name) false fs
    = (Return (BranchMessage ("Created branch " +:+ quoted name +:+ ".")),
       set_history_remote remotes
         (set_history_local (<[name := created]> (history_local fs)) fs))
    /\ forall other, other <> name -> remotes !! other = history_remote fs !! other.
Proof.
  intros Hne Hillegal Hcontrol Hreserved Hfree Hhead.
  unfold branch, bind, get_repo, read_art_json, modify, ret, throw.
  destruct name as [|c name']; [done|].
  cbn [Js.falsy_opt Js.falsy default from_option id].
  rewrite Hillegal, Hcontrol, Hreserved. cbn [orb]. rewrite Hfree, Hhead.
  eexists _, _. split; [reflexivity|].
  intros other Hother. cbn [history_remote set_history_local].
  destruct (history_remote fs !! String c name'); [done|].
  by apply lookup_insert_ne.
Qed.

(** The part of [checkout] that follows the creation of a missing
    branch, on a repository where the target branch exists. *)
Lemma checkout_guard_existing fs branchName dir head state :
  history_local fs !! branchName = Some dir ->
  art_json fs = Some head ->
  getStateByHash fs (active_branch head) (active_parent head) = Return state ->
  (is_dirty (worktree fs) state = true ->
     checkout branchName false fs = (Throw (Error dirty_message), fs))
  /\ (is_dirty (worktree fs) state = false ->
      fst (checkout branchName false fs) <> Throw (Error dirty_message)).
Proof.
  intros Hdir Hhead Hstate. split.
  - intros Hd. unfold checkout, bind, get_repo, read_art_json, lift, ret, throw.
    rewrite Hdir, Hhead, Hstate. simpl. by rewrite Hd.
  - intros Hc. unfold checkout, bind, get_repo, read_art_json, lift, ret, throw,
      read_manifest.
    rewrite Hdir, Hhead, Hstate. simpl. rewrite Hc, Hdir.
    destruct (bd_manifest dir) as [commits|]; [|done].
    destruct (getStateByHash fs branchName (last commits)) eqn:Htarget; [done|].
    apply getStateByHash_throws in Htarget as [path ->]. done.
Qed.

(** A missing branch is created first; the call goes on as on the
    repository with the new branch. *)
Lemma checkout_creates_then_goes_on fs branchName head :
  history_local fs !! branchName = None ->
  art_json fs = Some head ->
  branchName <> EmptyString ->
  illegalRegularExpression branchName = false ->
  controlRegularExpression branchName = false ->
  reservedRegularExpression branchName = false ->
  exists created remotes,
    let fs' :=
      set_history_remote remotes
        (set_history_local (<[branchName := created]> (history_local fs)) fs) in
    checkout branchName false fs = checkout branchName false fs'
    /\ forall other, other <> branchName -> remotes !! other = history_remote fs !! other.
Proof.
  intros Hfree Hhead Hne Hillegal Hcontrol Hreserved.
  destruct (branch_creates branchName fs head Hne Hillegal Hcontrol Hreserved Hfree Hhead)
    as (created & remotes & Hbranch & Hremotes).
  exists created, remotes. split; [|done].
  unfold checkout, bind, get_repo, ret. rewrite Hfree, Hbranch.
  cbn [history_local set_history_local set_history_remote].
  by rewrite lookup_insert_eq.
Qed.




(** ** Sizes of serialized changes *)

Lemma xs_succ n : Scenario.xs (N.succ n) = String "x" (Scenario.xs n).
Proof. unfold Scenario.xs. by rewrite N.iter_succ. Qed.

Lemma xs_plain n : plain (Scenario.xs n).
Proof.
  unfold plain. induction n as [|n IH] using N.peano_ind; [done|].
  rewrite xs_succ. simpl. by rewrite IH.
Qed.

Lemma xs_length n : Js.length (Scenario.xs n) = Z.of_N n.
Proof.
  induction n as [|n IH] using N.peano_ind; [done|].
  rewrite xs_succ. unfold Js.length in *. simpl String.length. lia.
Qed.

Lemma quote_length s : plain s -> Js.length (Json.quote s) = Js.length s + 2.
Proof.
  intros Hs. unfold Json.quote. rewrite !js_length_app, Hs. 
  change (Js.length Json.dquote) with 1. lia.
Qed.


Lemma size_of_create s : plain s -> Pager.size_of (CreateFile s) = Js.length s + 34.
Proof.
  intros Hs. unfold Pager.size_of, Json.stringify.
  cbn [Json.of_change Json.serialize map fst snd Json.wrap Js.falsy String.concat].
  rewrite !js_length_app. literal_lengths s.
  rewrite (quote_length s) by done. lia.
Qed.

Lemma on_disk_size_two_creates s :
  plain s ->
  on_disk_size [("a", CreateFile s); ("b", CreateFile s)] = 2 * Js.length s + 153.
Proof.
  intros Hs. unfold on_disk_size, Json.stringify_pretty, Json.of_part, Json.of_changes.
  cbn [Json.of_change Json.serialize map fst snd Json.wrap Js.falsy String.concat].
  rewrite !js_length_app. literal_lengths s.
  rewrite !(quote_length s) by done. lia.
Qed.

Lemma step_within_bound name guard skip st entry :
  Pager.currentSize st + Pager.size_of (snd entry) <= MAX_PART_SIZE ->
  Pager.step name guard skip st entry
  = {| Pager.parts := Pager.parts st;
       Pager.currentPartChanges :=
         Obj.set (fst entry) (snd entry) (Pager.currentPartChanges st);
       Pager.currentSize := Pager.currentSize st + Pager.size_of (snd entry) |}.
Proof.
  intros Hle. unfold Pager.step.
  destruct (Z.gtb_spec (Pager.currentSize st + Pager.size_of (snd entry)) MAX_PART_SIZE);
    [lia | done].
Qed.

Lemma save_two_creates s :
  plain s -> Js.length s = 15999966 ->
  pd_parts (savePaginatedChanges [("a", CreateFile s); ("b", CreateFile s)])
  !! "part.0.json" = Some [("a", CreateFile s); ("b", CreateFile s)].
Proof.
  intros Hs Hlen.
  assert (Pager.size_of (CreateFile s) = 16000000) as Hsize.
  { rewrite size_of_create, Hlen by done. done. }
  unfold savePaginatedChanges, Pager.run. cbn [fold_left].
  rewrite (step_within_bound _ _ _ Pager.init);
    [|change (0 + Pager.size_of (CreateFile s) <= MAX_PART_SIZE);
      rewrite Hsize; unfold MAX_PART_SIZE; lia].
  rewrite step_within_bound;
    [|change (0 + Pager.size_of (CreateFile s) + Pager.size_of (CreateFile s)
              <= MAX_PART_SIZE);
      rewrite Hsize; unfold MAX_PART_SIZE; lia].
  cbn [fst snd Pager.init Pager.currentPartChanges Pager.parts Pager.currentSize].
  change (Obj.set "b" (CreateFile s) (Obj.set "a" (CreateFile s) []))
    with [("a", CreateFile s); ("b", CreateFile s)].
  unfold Pager.savePart.
  cbn [Pager.currentPartChanges Pager.parts Obj.is_empty andb app pd_parts
       list_to_map foldr fst snd length List.length].
  change (part_name EmptyString 0) with "part.0.json".
  apply lookup_insert_eq.
Qed.

(** C8 as stated fails: two changes of 16,000,000 serialized characters
    each are accounted as 32,000,000, stay in one part, and that part
    takes 32,000,085 characters on disk. *)
Lemma two_large_files_exceed_the_bound_on_disk :
  ~ save_within_bound_on_disk Scenario.two_large_files.
Proof.
  intros H. unfold save_within_bound_on_disk, Scenario.two_large_files in H.
  pose proof (xs_plain 15999966) as Hplain.
  pose proof (xs_length 15999966) as Hlen.
  change (Z.of_N 15999966) with 15999966 in Hlen.
  generalize dependent (Scenario.xs 15999966). intros s H Hplain Hlen.
  specialize (H _ _ (save_two_creates s Hplain Hlen)).
  destruct H as [Hsize | (file & changeSet & Hsingle & _)]; [|discriminate Hsingle].
  rewrite on_disk_size_two_creates, Hlen in Hsize by done.
  unfold MAX_PART_SIZE in Hsize. lia.
Qed.

(** ** The bound kept by the splitting loop *)

Lemma size_of_nonneg changeSet : 0 <= Pager.size_of changeSet.
Proof. apply js_length_nonneg. Qed.

Lemma accounted_size_nonneg part : 0 <= accounted_size part.
Proof.
  induction part as [|entry part IH]; simpl; [done|].
  pose proof (size_of_nonneg (snd entry)). lia.
Qed.

Lemma accounted_size_set file changeSet part :
  accounted_size (Obj.set file changeSet part)
  <= accounted_size part + Pager.size_of changeSet.
Proof.
  induction part as [|[file' changeSet'] part IH]; simpl; [lia|].
  pose proof (size_of_nonneg changeSet'). case_decide; simpl; lia.
Qed.

Lemma set_not_empty {V} file (v : V) (o : Obj.t V) : Obj.set file v o <> [].
Proof. destruct o as [|[k' v'] o]; simpl; [done|]. by case_decide. Qed.

Lemma is_empty_nil {V} (o : Obj.t V) : Obj.is_empty o = true <-> o = [].
Proof. by destruct o. Qed.

Lemma pager_inv_init : pager_inv Pager.init.
Proof.
  unfold pager_inv. simpl. split; [constructor|]. split; [lia|]. split; [done|].
  left. unfold MAX_PART_SIZE. lia.
Qed.

Lemma pager_inv_savePart name skip st :
  pager_inv st -> pager_inv (Pager.savePart name skip st).
Proof.
  intros (Hparts & Hacc & Hzero & Hbound). unfold Pager.savePart.
  destruct (skip && Obj.is_empty (Pager.currentPartChanges st)); [done|].
  unfold pager_inv. simpl. split; [|split; [lia|split; [done|]]].
  - apply Forall_app. split; [done|]. apply Forall_singleton. simpl.
    destruct Hbound as [Hle|Hbig]; [left; lia | by right].
  - left. unfold MAX_PART_SIZE. lia.
Qed.

Lemma pager_inv_step name guard skip st entry :
  pager_inv st -> pager_inv (Pager.step name guard skip st entry).
Proof.
  intros Hinv. unfold Pager.step.
  set (size := Pager.size_of (snd entry)).
  set (flush := (Pager.currentSize st + size >? MAX_PART_SIZE)
                && (if guard then negb (Obj.is_empty (Pager.currentPartChanges st))
                    else true)).
  set (st1 := if flush then Pager.savePart name skip st else st).
  assert (pager_inv st1) as (Hparts & Hacc & Hzero & _).
  { unfold st1. destruct flush; [by apply pager_inv_savePart | done]. }
  assert (Pager.currentPartChanges st1 = []
          \/ Pager.currentSize st1 + size <= MAX_PART_SIZE) as Hroom.
  { unfold st1, flush.
    destruct (Z.gtb_spec (Pager.currentSize st + size) MAX_PART_SIZE) as [Hgt|Hle];
      simpl; [|by right].
    destruct Hinv as (_ & _ & Hzero0 & _).
    destruct (Pager.currentPartChanges st) as [|first others] eqn:Hcur.
    - left. unfold Pager.savePart. rewrite Hcur.
      destruct guard, skip; simpl; try done; by rewrite ?Hcur.
    - left. unfold Pager.savePart. rewrite Hcur.
      destruct guard, skip; simpl; done. }
  pose proof (size_of_nonneg (snd entry)) as Hnn. fold size in Hnn.
  unfold pager_inv. simpl. split; [done|]. split; [|split].
  - pose proof (accounted_size_set (fst entry) (snd entry)
                  (Pager.currentPartChanges st1)) as Hset.
    fold size in Hset. lia.
  - intros Habs. by apply set_not_empty in Habs.
  - destruct Hroom as [Hempty|Hle]; [|left; lia].
    rewrite Hempty, (Hzero Hempty). simpl.
    destruct (decide (size <= MAX_PART_SIZE)); [left; lia|].
    right. exists (fst entry), (snd entry). split; [done | fold size; lia].
Qed.

Lemma pager_inv_fold name guard skip entries st :
  pager_inv st -> pager_inv (fold_left (Pager.step name guard skip) entries st).
Proof.
  revert st; induction entries as [|entry entries IH]; intros st Hinv; [done|].
  simpl. apply IH. by apply pager_inv_step.
Qed.

Lemma run_within_accounted_bound name guard skip entries :
  Forall (fun part => within_bound_accounted (snd part))
    (Pager.run name guard skip entries).
Proof.
  unfold Pager.run.
  apply (pager_inv_savePart name skip), (pager_inv_fold name guard skip entries),
    pager_inv_init.
Qed.

(** C8 (amended). For every mapping written by [savePaginatedChanges],
    and by the stage persistence of [add], every part is within
    [MAX_PART_SIZE] in the measure the split accounts for (the sum of the
    lengths of the JSON encodings of its change values, each serialized
    alone, without keys and without the layout of the file), except a part
    holding a single change entry whose one change alone exceeds the
    bound. *)
Theorem parts_within_accounted_bound (changes : Obj.t change) :
  map_Forall (fun _ part => within_bound_accounted part)
    (pd_parts (savePaginatedChanges changes))
  /\ Forall (fun part => within_bound_accounted (snd part))
       (Pager.run (part_name EmptyString) true false changes).
Proof.
  split; [|apply run_within_accounted_bound].
  intros name part Hlookup. unfold savePaginatedChanges in Hlookup. simpl in Hlookup.
  apply elem_of_list_to_map_2 in Hlookup.
  pose proof (run_within_accounted_bound (part_name EmptyString) true true changes) as Hall.
  rewrite Forall_forall in Hall. apply (Hall (name, part)). done.
Qed.

(** ** Objects *)

Lemma obj_set_fresh {V} file (v : V) (o : Obj.t V) :
  file ∉ Obj.keys o -> Obj.set file v o = o ++ [(file, v)].
Proof.
  induction o as [|[k' v'] o IH]; simpl; [done|].
  intros Hnotin. apply not_elem_of_cons in Hnotin as [Hne Hrest].
  case_decide; [congruence|]. by rewrite IH.
Qed.

Lemma obj_keys_app {V} (a b : Obj.t V) : Obj.keys (a ++ b) = Obj.keys a ++ Obj.keys b.
Proof. apply map_app. Qed.

Lemma obj_assign_fresh {V} (target source : Obj.t V) :
  NoDup (Obj.keys (target ++ source)) -> Obj.assign target source = target ++ source.
Proof.
  unfold Obj.assign. revert target.
  induction source as [|[k v] source IH]; intros target Hnd; simpl.
  - by rewrite app_nil_r.
  - rewrite obj_keys_app in Hnd. simpl in Hnd.
    rewrite obj_set_fresh.
    + rewrite IH; [by rewrite <- app_assoc|].
      rewrite !obj_keys_app. simpl. by rewrite <- app_assoc.
    + apply NoDup_app in Hnd as (_ & Hdisj & _). intros Hin.
      apply (Hdisj _ Hin). by left.
Qed.

Lemma obj_get_Some_key {V} file (v : V) (o : Obj.t V) :
  Obj.get file o = Some v -> file ∈ Obj.keys o.
Proof.
  induction o as [|[k' v'] o IH]; simpl; [done|].
  case_decide; [subst; intros _; by left | intros Hget; right; by apply IH].
Qed.

Lemma obj_get_elem_of {V} file (v : V) (o : Obj.t V) :
  NoDup (Obj.keys o) -> (file, v) ∈ o -> Obj.get file o = Some v.
Proof.
  induction o as [|[k' v'] o IH]; simpl; intros Hnd Hin; [by apply elem_of_nil in Hin|].
  apply NoDup_cons in Hnd as [Hfresh Hnd].
  apply elem_of_cons in Hin as [[= <- <-]|Hin]; [by rewrite decide_True|].
  case_decide as Heq; [|by apply IH].
  subst. exfalso. apply Hfresh.
  change file with (fst (file, v)). by apply list_elem_of_fmap_2.
Qed.

(** ** [new Set(...)] *)

Lemma js_set_fold (acc l : list string) :
  NoDup acc ->
  NoDup (fold_left (fun acc x => if decide (x ∈ acc) then acc else acc ++ [x]) l acc)
  /\ (forall x, x ∈ fold_left (fun acc x => if decide (x ∈ acc) then acc else acc ++ [x]) l acc
                <-> x ∈ acc \/ x ∈ l).
Proof.
  revert acc; induction l as [|y l IH]; intros acc Hnd; simpl.
  - split; [done|]. intros x. rewrite elem_of_nil. tauto.
  - case_decide as Hin.
    + destruct (IH acc Hnd) as [H1 H2]. split; [done|].
      intros x. rewrite H2, elem_of_cons. split; [tauto|].
      intros [?|[->|?]]; tauto.
    + assert (NoDup (acc ++ [y])) as Hnd'.
      { apply NoDup_app. split; [done|]. split; [|apply NoDup_singleton].
        intros x Hx Hy. apply list_elem_of_singleton in Hy. by subst. }
      destruct (IH _ Hnd') as [H1 H2]. split; [done|].
      intros x. rewrite H2, elem_of_app, list_elem_of_singleton, elem_of_cons. tauto.
Qed.

Lemma js_set_NoDup l : NoDup (js_set l).
Proof. apply js_set_fold. constructor. Qed.

Lemma js_set_elem_of l x : x ∈ js_set l <-> x ∈ l.
Proof.
  unfold js_set. destruct (js_set_fold [] l) as [_ H]; [constructor|].
  rewrite H, elem_of_nil. tauto.
Qed.

(** ** Part names *)

Lemma string_app_inj_r (a b suffix : string) : a +:+ suffix = b +:+ suffix -> a = b.
Proof.
  intros H. apply (f_equal list_ascii_of_string) in H.
  assert (forall x y, list_ascii_of_string (x +:+ y)
                      = list_ascii_of_string x ++ list_ascii_of_string y) as Happ.
  { intros x y. induction x as [|c x IHx]; simpl; [done | by rewrite IHx]. }
  rewrite !Happ in H. apply app_inv_tail in H.
  rewrite <- (string_of_list_ascii_of_string a), <- (string_of_list_ascii_of_string b).
  by rewrite H.
Qed.

Lemma to_uint_nonnil n : Nat.to_uint n <> Nil.
Proof.
  intros H. pose proof (DecimalNat.Unsigned.of_to n) as E.
  rewrite H in E. simpl in E. subst n. discriminate H.
Qed.

Lemma of_nat_inj n m : Json.of_nat n = Json.of_nat m -> n = m.
Proof.
  unfold Json.of_nat. intros H.
  apply (f_equal NilZero.uint_of_string) in H.
  rewrite !NilZero.usu in H by apply to_uint_nonnil.
  injection H as H. by apply DecimalNat.Unsigned.to_uint_inj.
Qed.

Lemma part_name_inj prefix : Inj eq eq (part_name prefix).
Proof.
  intros n m H. unfold part_name in H.
  apply String.app_inj in H. apply (String.app_inj "part.") in H.
  apply string_app_inj_r in H. by apply of_nat_inj.
Qed.

(** ** What the splitting loop writes *)

Lemma savePart_content name skip st :
  pager_content (Pager.savePart name skip st) = pager_content st
  /\ Pager.currentPartChanges (Pager.savePart name skip st) = [].
Proof.
  unfold Pager.savePart, pager_content.
  destruct skip, (Pager.currentPartChanges st) eqn:Hcur; simpl;
    rewrite ?Hcur, ?map_app, ?concat_app, ?app_nil_r; simpl;
    rewrite ?app_nil_r; done.
Qed.

Lemma savePart_names name skip st :
  pager_names name st -> pager_names name (Pager.savePart name skip st).
Proof.
  unfold Pager.savePart, pager_names. intros Hn.
  destruct (skip && Obj.is_empty (Pager.currentPartChanges st)); [done|]. simpl.
  rewrite map_app, length_app, seq_app, map_app, Hn. simpl. done.
Qed.

Lemma step_content name guard skip st entry :
  fst entry ∉ Obj.keys (pager_content st) ->
  pager_content (Pager.step name guard skip st entry) = pager_content st ++ [entry].
Proof.
  intros Hfresh. unfold Pager.step.
  match goal with
  | |- context [if ?c then Pager.savePart name skip st else st] =>
      set (st1 := if c then Pager.savePart name skip st else st)
  end.
  assert (pager_content st1 = pager_content st) as Hsame.
  { unfold st1.
    match goal with |- context [if ?c then _ else _] => destruct c end;
      [apply savePart_content | done]. }
  unfold pager_content at 1. simpl. rewrite obj_set_fresh.
  - rewrite app_assoc. fold (pager_content st1). rewrite Hsame.
    by destruct entry.
  - intros Hin. apply Hfresh. rewrite <- Hsame. unfold pager_content.
    rewrite obj_keys_app, elem_of_app. by right.
Qed.

Lemma step_names name guard skip st entry :
  pager_names name st -> pager_names name (Pager.step name guard skip st entry).
Proof.
  intros Hn. unfold Pager.step, pager_names. simpl.
  match goal with |- context [if ?c then _ else _] => destruct c end;
    [by apply savePart_names | done].
Qed.

Lemma fold_content name guard skip entries st :
  NoDup (Obj.keys (pager_content st ++ entries)) ->
  pager_content (fold_left (Pager.step name guard skip) entries st)
  = pager_content st ++ entries.
Proof.
  revert st; induction entries as [|entry entries IH]; intros st Hnd; simpl.
  - by rewrite app_nil_r.
  - assert (fst entry ∉ Obj.keys (pager_content st)) as Hfresh.
    { rewrite obj_keys_app in Hnd. apply NoDup_app in Hnd as (_ & Hdisj & _).
      intros Hin. apply (Hdisj _ Hin). simpl. by left. }
    rewrite IH; rewrite step_content by done; rewrite <- app_assoc; done.
Qed.

Lemma fold_names name guard skip entries st :
  pager_names name st ->
  pager_names name (fold_left (Pager.step name guard skip) entries st).
Proof.
  revert st; induction entries as [|entry entries IH]; intros st Hn; [done|].
  simpl. apply IH. by apply step_names.
Qed.

(** Reading back a directory written from a list of parts with distinct
    names and distinct keys. *)
Lemma load_written (written : list (string * Obj.t change)) :
  NoDup (map fst written) ->
  NoDup (Obj.keys (concat (map snd written))) ->
  getPaginatedChanges
    (Some {| pd_manifest := Some (map fst written);
             pd_parts := list_to_map written |})
  = concat (map snd written).
Proof.
  intros Hnames Hkeys. simpl.
  set (files := list_to_map written : gmap string (Obj.t change)).
  assert (forall parts allChanges,
             parts ⊆ written ->
             NoDup (Obj.keys (allChanges ++ concat (map snd parts))) ->
             fold_left
               (fun allChanges partName =>
                  match files !! partName with
                  | Some partData => Obj.assign allChanges partData
                  | None => allChanges
                  end) (map fst parts) allChanges
             = allChanges ++ concat (map snd parts)) as Hfold.
  { induction parts as [|[partName partData] parts IH]; intros allChanges Hsub Hnd; simpl.
    - by rewrite app_nil_r.
    - assert (files !! partName = Some partData) as ->.
      { apply elem_of_list_to_map_1; [done|]. apply Hsub. by left. }
      simpl in Hnd. rewrite app_assoc in Hnd.
      rewrite obj_assign_fresh.
      + rewrite IH; [by rewrite <- app_assoc | | done].
        intros x Hx. apply Hsub. by right.
      + rewrite obj_keys_app in Hnd. by apply NoDup_app in Hnd as (? & _ & _). }
  rewrite (Hfold written []); done.
Qed.

Lemma load_run name guard skip entries :
  Inj eq eq name ->
  NoDup (Obj.keys entries) ->
  let written := Pager.run name guard skip entries in
  getPaginatedChanges
    (Some {| pd_manifest := Some (map fst written);
             pd_parts := list_to_map written |})
  = entries.
Proof.
  intros Hinj Hnd written.
  pose proof (fold_content name guard skip entries Pager.init Hnd) as Hcontent.
  pose proof (fold_names name guard skip entries Pager.init eq_refl) as Hnames.
  set (st := fold_left (Pager.step name guard skip) entries Pager.init) in *.
  destruct (savePart_content name skip st) as [Hsame Hempty].
  apply (savePart_names name skip) in Hnames.
  unfold written, Pager.run. fold st.
  set (final := Pager.savePart name skip st) in *.
  assert (concat (map snd (Pager.parts final)) = entries) as Hall.
  { rewrite Hcontent in Hsame. unfold pager_content at 1 in Hsame.
    by rewrite Hempty, app_nil_r in Hsame. }
  rewrite load_written; [done | |by rewrite Hall].
  rewrite Hnames. apply NoDup_fmap_2; [done | apply NoDup_seq].
Qed.

(** ** File-system calls that do not throw *)

Lemma clash_free_spec paths :
  clash_free paths = true
  <-> forall d p, d ∈ paths -> p ∈ paths -> ancestor_of d p = false.
Proof.
  unfold clash_free. rewrite forallb_forall. split.
  - intros Hall d p Hd Hp. apply list_elem_of_In in Hd. specialize (Hall d Hd).
    apply negb_true_iff in Hall.
    destruct (ancestor_of d p) eqn:Hanc; [|done].
    assert (existsb (ancestor_of d) paths = true) as Habs; [|congruence].
    apply existsb_exists. exists p. split; [by apply list_elem_of_In | done].
  - intros Hall d Hd. apply negb_true_iff.
    destruct (existsb (ancestor_of d) paths) eqn:Hex; [|done].
    apply existsb_exists in Hex as (p & Hp & Hanc).
    apply list_elem_of_In in Hd, Hp. by rewrite (Hall d p Hd Hp) in Hanc.
Qed.

Lemma ordinary_path_nonempty p : ordinary_path p = true -> p <> EmptyString.
Proof. by intros Hp ->. Qed.

(** On a tree that holds files of the initial tree and files at the
    given paths only, a call on one of the paths does not throw when no
    path lies above another. *)
Lemma no_clash_no_error (initial work : gmap string string) paths p :
  clash_free (tree_paths initial ++ paths) = true ->
  (forall q, is_Some (work !! q) -> is_Some (initial !! q) \/ q ∈ paths) ->
  p ∈ paths -> p <> EmptyString ->
  below_a_file work p = false /\ is_dir initial work p = false.
Proof.
  intros Hfree Hwork Hp Hne.
  pose proof (proj1 (clash_free_spec _) Hfree) as Hclash.
  assert (forall q, is_Some (work !! q) -> q ∈ tree_paths initial ++ paths) as Hin.
  { intros q Hq. apply elem_of_app.
    destruct (Hwork q Hq) as [Hq'|Hq']; [left; by apply tree_paths_elem | by right]. }
  assert (p ∈ tree_paths initial ++ paths) as Hp' by (apply elem_of_app; by right).
  split.
  - apply below_a_file_false. intros d Hd. apply Hclash; [by apply Hin | done].
  - unfold is_dir. assert (Js.falsy p = false) as -> by by destruct p.
    cbn [orb]. apply orb_false_iff. split; apply has_below_false; intros q Hq.
    + apply Hclash; [done|]. apply elem_of_app. left. by apply tree_paths_elem.
    + apply Hclash; [done | by apply Hin].
Qed.

Lemma no_clash_no_write_error (initial work : gmap string string) paths p :
  clash_free (tree_paths initial ++ paths) = true ->
  (forall q, is_Some (work !! q) -> is_Some (initial !! q) \/ q ∈ paths) ->
  p ∈ paths -> p <> EmptyString ->
  write_error initial work p = None /\ unlink_error initial work p = None.
Proof.
  intros Hfree Hwork Hp Hne.
  destruct (no_clash_no_error initial work paths p Hfree Hwork Hp Hne) as [Hfile Hdir].
  unfold write_error, unlink_error. rewrite Hfile, Hdir.
  by destruct (file_exists work p).
Qed.

(** ** The three-way merge *)

(** The ancestor search finds the last common commit. *)
Lemma find_skips {A} (f : A -> bool) l1 l2 :
  Forall (fun x => f x = false) l1 -> List.find f (l1 ++ l2) = List.find f l2.
Proof.
  induction l1 as [|x l1 IH]; intros Hall; [done|].
  apply Forall_cons in Hall as [Hx Hall]. cbn. rewrite Hx. by apply IH.
Qed.

Lemma common_ancestor_spec activeCommits targetCommits ancestor :
  last_common_commit activeCommits targetCommits ancestor ->
  common_ancestor activeCommits targetCommits
  = match ancestor with
    | Some hash => if Js.falsy hash then None else Some hash
    | None => None
    end.
Proof.
  unfold last_common_commit, common_ancestor.
  assert (forall l, Forall (fun h => h ∉ targetCommits) l ->
                    Forall (fun h => bool_decide (h ∈ targetCommits) = false) (rev l))
    as Hrev.
  { intros l Hl. apply Forall_forall. intros h Hh. apply bool_decide_eq_false_2.
    rewrite Forall_forall in Hl. apply Hl.
    by apply list_elem_of_In, in_rev, list_elem_of_In. }
  destruct ancestor as [hash|].
  - intros (Hin & older & newer & -> & Hnewer).
    rewrite rev_app_distr. cbn [rev]. rewrite <- app_assoc.
    rewrite find_skips by by apply Hrev.
    cbn. by rewrite bool_decide_eq_true_2.
  - intros Hnone. apply Hrev in Hnone.
    rewrite <- (app_nil_r (rev activeCommits)). by rewrite find_skips.
Qed.

Lemma base_state_spec fs activeBranch activeCommits targetCommits ancestor :
  last_common_commit activeCommits targetCommits ancestor ->
  base_state fs activeBranch (common_ancestor activeCommits targetCommits)
  = state_at_ancestor fs activeBranch ancestor.
Proof.
  intros Hlast. rewrite (common_ancestor_spec _ _ _ Hlast).
  unfold base_state, state_at_ancestor.
  destruct ancestor as [hash|]; [|done]. by destruct (Js.falsy hash).
Qed.

Section Merge.

Variable targetBranch : string.
Variables baseState activeState targetState : Obj.t string.

Local Abbreviation step_file := (merge_file targetBranch baseState activeState targetState).
Local Abbreviation change_of := (merge_change targetBranch baseState activeState targetState).

Lemma merge_file_pager acc filePath :
  snd (step_file acc filePath)
  = match change_of filePath with
    | Some change =>
        Pager.step (part_name EmptyString) false true (snd acc) (filePath, change)
    | None => snd acc
    end.
Proof.
  unfold merge_file, merge_change.
  repeat (case_bool_decide; simpl; try done);
    destruct (Obj.get filePath targetState); done.
Qed.

Lemma merge_file_other acc filePath other :
  other <> filePath -> fst (step_file acc filePath) !! other = fst acc !! other.
Proof.
  intros Hne. unfold merge_file.
  repeat (case_bool_decide; simpl; try done);
    try destruct (Obj.get filePath targetState); simpl;
    rewrite ?lookup_insert_ne, ?lookup_delete_ne by done; done.
Qed.

Lemma merge_file_conflict acc filePath :
  Obj.get filePath baseState <> Obj.get filePath activeState ->
  Obj.get filePath baseState <> Obj.get filePath targetState ->
  Obj.get filePath activeState <> Obj.get filePath targetState ->
  fst (step_file acc filePath) !! filePath
  = Some (conflict_content (Obj.get filePath activeState)
            (Obj.get filePath targetState) targetBranch)
  /\ change_of filePath
     = Some (CreateFile (conflict_content (Obj.get filePath activeState)
                           (Obj.get filePath targetState) targetBranch)).
Proof.
  intros H1 H2 H3. unfold merge_file, merge_change.
  rewrite !(bool_decide_eq_false_2 _ H1), !(bool_decide_eq_false_2 _ H2),
    !(bool_decide_eq_false_2 _ H3). simpl.
  by rewrite lookup_insert_eq.
Qed.

Lemma merge_fold_other files acc other :
  other ∉ files -> fst (fold_left step_file files acc) !! other = fst acc !! other.
Proof.
  revert acc; induction files as [|filePath files IH]; intros acc Hnotin; [done|].
  apply not_elem_of_cons in Hnotin as [Hne Hrest]. simpl.
  rewrite IH by done. by apply merge_file_other.
Qed.

Lemma merge_fold_pager files acc :
  snd (fold_left step_file files acc)
  = fold_left (Pager.step (part_name EmptyString) false true)
      (merge_entries targetBranch baseState activeState targetState files) (snd acc).
Proof.
  revert acc; induction files as [|filePath files IH]; intros acc; [done|].
  simpl. rewrite IH, merge_file_pager. unfold merge_entries. simpl.
  by destruct (change_of filePath).
Qed.

Lemma merge_entries_keys files :
  NoDup files ->
  NoDup (Obj.keys (merge_entries targetBranch baseState activeState targetState files))
  /\ (forall file, file ∈ Obj.keys (merge_entries targetBranch baseState activeState
                                       targetState files) -> file ∈ files).
Proof.
  induction files as [|filePath files IH]; intros Hnd; simpl.
  - split; [constructor|]. intros file Hin. by apply elem_of_nil in Hin.
  - apply NoDup_cons in Hnd as [Hfresh Hnd]. destruct (IH Hnd) as [IH1 IH2].
    unfold merge_entries. simpl. destruct (change_of filePath); simpl.
    + split.
      * apply NoDup_cons. split; [|done]. intros Hin. by apply IH2 in Hin.
      * intros file Hin. apply elem_of_cons in Hin as [->|Hin]; [by left|].
        right. by apply IH2.
    + split; [done|]. intros file Hin. right. by apply IH2.
Qed.

Lemma merge_entries_conflict files filePath change :
  filePath ∈ files -> change_of filePath = Some change ->
  (filePath, change) ∈ merge_entries targetBranch baseState activeState targetState files.
Proof.
  intros Hin Hchange. unfold merge_entries. apply list_elem_of_omap.
  exists filePath. split; [done|]. by rewrite Hchange.
Qed.

Lemma merge_fold_conflict files acc filePath :
  NoDup files -> filePath ∈ files ->
  Obj.get filePath baseState <> Obj.get filePath activeState ->
  Obj.get filePath baseState <> Obj.get filePath targetState ->
  Obj.get filePath activeState <> Obj.get filePath targetState ->
  fst (fold_left step_file files acc) !! filePath
  = Some (conflict_content (Obj.get filePath activeState)
            (Obj.get filePath targetState) targetBranch).
Proof.
  intros Hnd Hin H1 H2 H3. revert acc.
  induction files as [|first files IH]; intros acc; [by apply elem_of_nil in Hin|].
  apply NoDup_cons in Hnd as [Hfresh Hnd]. simpl.
  destruct (decide (filePath = first)) as [->|Hne].
  - rewrite merge_fold_other by done. by apply merge_file_conflict.
  - apply elem_of_cons in Hin as [?|Hin]; [done|]. by apply IH.
Qed.

Lemma merge_file_files acc filePath q :
  is_Some (fst (step_file acc filePath) !! q) ->
  is_Some (fst acc !! q) \/ q = filePath.
Proof.
  intros Hq. destruct (decide (q = filePath)) as [->|Hne]; [by right|].
  left. by rewrite merge_file_other in Hq.
Qed.

Lemma merge_file_no_error initial work paths filePath :
  clash_free (tree_paths initial ++ paths) = true ->
  (forall q, is_Some (work !! q) -> is_Some (initial !! q) \/ q ∈ paths) ->
  filePath ∈ paths -> filePath <> EmptyString ->
  merge_file_error initial baseState activeState targetState work filePath = None.
Proof.
  intros Hfree Hwork Hin Hne.
  destruct (no_clash_no_write_error initial work paths filePath Hfree Hwork Hin Hne)
    as [Hwrite Hunlink].
  unfold merge_file_error. rewrite Hwrite, Hunlink.
  repeat (case_bool_decide; cbn [negb andb]; try done);
    by destruct (Obj.get filePath targetState).
Qed.

(** Without a clash between the paths the loop runs to its end. *)
Lemma merge_files_run initial paths files acc :
  clash_free (tree_paths initial ++ paths) = true ->
  Forall (fun p => p <> EmptyString) paths ->
  (forall filePath, filePath ∈ files -> filePath ∈ paths) ->
  (forall q, is_Some (fst acc !! q) -> is_Some (initial !! q) \/ q ∈ paths) ->
  merge_files targetBranch baseState activeState targetState initial files acc
  = (None, fold_left step_file files acc).
Proof.
  intros Hfree Hne. revert acc.
  induction files as [|filePath files IH]; intros acc Hfiles Hacc; [done|].
  cbn [merge_files fold_left].
  assert (filePath ∈ paths) as Hin by (apply Hfiles; by left).
  rewrite (merge_file_no_error initial (fst acc) paths filePath); try done.
  - apply IH.
    + intros other Hother. apply Hfiles. by right.
    + intros q Hq. apply merge_file_files in Hq as [Hq | ->]; [by apply Hacc | by right].
  - rewrite Forall_forall in Hne. by apply Hne.
Qed.

End Merge.

Lemma getStateByHash_set_stage s fs branchName targetHash :
  getStateByHash (set_stage s fs) branchName targetHash
  = getStateByHash fs branchName targetHash.
Proof. done. Qed.

(** What [merge] leaves untouched, whether it returns or throws. *)
Lemma merge_frame targetBranch fs :
  let fs' := snd (merge targetBranch fs) in
  art_json fs' = art_json fs
  /\ history_local fs' = history_local fs
  /\ history_remote fs' = history_remote fs
  /\ root_manifest fs' = root_manifest fs
  /\ root_parts fs' = root_parts fs
  /\ cache fs' = cache fs.
Proof.
  unfold merge, bind, read_art_json, read_manifest, modify, get_repo, lift, ret.
  destruct (art_json fs) as [head|] eqn:Hhead; simpl; [|done].
  destruct (history_local fs !! active_branch head) as [activeDir|]; simpl; [|done].
  destruct (bd_manifest activeDir) as [activeCommits|]; simpl; [|done].
  destruct (history_local fs !! targetBranch) as [targetDir|]; simpl; [|done].
  destruct (bd_manifest targetDir) as [targetCommits|]; simpl; [|done].
  destruct (base_state _ _ _); simpl; [|done].
  destruct (getStateByHash _ (active_branch head) _); simpl; [|done].
  destruct (getStateByHash _ targetBranch _); simpl; [|done].
  by destruct (fst (merge_files _ _ _ _ _ _ _)).
Qed.

(** What [merge] does on writable paths: the loop runs to its end. *)
Lemma merge_runs targetBranch fs head activeCommits targetCommits ancestor
    baseState activeState targetState :
  art_json fs = Some head ->
  history_local fs !! active_branch head ≫= bd_manifest = Some activeCommits ->
  history_local fs !! targetBranch ≫= bd_manifest = Some targetCommits ->
  last_common_commit activeCommits targetCommits ancestor ->
  state_at_ancestor fs (active_branch head) ancestor = Return baseState ->
  getStateByHash fs (active_branch head) (active_parent head) = Return activeState ->
  getStateByHash fs targetBranch (last targetCommits) = Return targetState ->
  writable (worktree fs) (Obj.keys activeState ++ Obj.keys targetState) ->
  let allFiles := js_set (Obj.keys activeState ++ Obj.keys targetState) in
  let merged :=
    fold_left (merge_file targetBranch baseState activeState targetState)
      allFiles (worktree fs, Pager.init) in
  let written :=
    Pager.parts (Pager.savePart (part_name EmptyString) true (snd merged)) in
  merge targetBranch fs
  = (Return ("Merged " +:+ targetBranch +:+ "."),
     set_stage (Some {| pd_manifest := Some (map fst written);
                        pd_parts := list_to_map written |})
       (set_worktree (fst merged)
          (set_stage (Some {| pd_manifest := None; pd_parts := ∅ |}) fs))).
Proof.
  intros Hhead Hactive Htarget Hancestor Hbase Hours Htheirs [Hordinary Hfree]
    allFiles merged written.
  unfold merge, bind, read_art_json, read_manifest, modify, get_repo, lift, ret.
  rewrite Hhead. simpl.
  destruct (history_local fs !! active_branch head) as [activeDir|]; [|done].
  simpl in Hactive. rewrite Hactive. simpl.
  destruct (history_local fs !! targetBranch) as [targetDir|]; [|done].
  simpl in Htarget. rewrite Htarget. simpl.
  change (base_state (set_stage ?s fs)) with (base_state fs).
  rewrite (base_state_spec fs _ _ _ _ Hancestor), Hbase. simpl.
  rewrite !getStateByHash_set_stage, Hours. simpl.
  rewrite Htheirs. simpl. fold allFiles.
  rewrite (merge_files_run targetBranch baseState activeState targetState
             (worktree fs) (Obj.keys activeState ++ Obj.keys targetState)).
  - done.
  - done.
  - apply Forall_forall. intros p Hp. rewrite Forall_forall in Hordinary.
    by apply ordinary_path_nonempty, Hordinary.
  - intros filePath Hin. by apply js_set_elem_of.
  - intros q Hq. by left.
Qed.



(** ** Runs of [reset], [commit] and [add] on the scenarios *)

(** C3 (the code at the failing input). On S2, [reset("c1")] moves
    [head.active.parent] to [c1] and cuts the manifest to end at [c1],
    then calls [checkout] without [force]: the tree, clean at [c2],
    differs from the state at [c1], the call throws and the working tree
    is not materialized.  A forced checkout from there would write
    ["hello\n"]. *)
Theorem reset_checkout_not_forced :
  let r := reset (Some "c1") Scenario.S2 in
  fst r = Throw (Error dirty_message)
  /\ active_parent <$> art_json (snd r) = Some (Some "c1")
  /\ history_local (snd r) !! "main" ≫= bd_manifest = Some ["c1"]
  /\ getStateByHash (snd r) "main" (Some "c1") = Return [("a.txt", Scenario.hello)]
  /\ worktree (snd r) = {[ "a.txt" := Scenario.Hello ]}
  /\ worktree (snd (checkout "main" true (snd r))) = {[ "a.txt" := Scenario.hello ]}.
Proof. cbv zeta; split_conj; by_eval. Qed.

(** C4 (the code at the failing input). After the failed reset above,
    [c2.json] is on disk and [c2] is not in the manifest; [reset("c2")]
    writes [head.active.parent = c2], leaves the manifest alone, and its
    non-forced checkout throws: the head points outside the manifest. *)
Theorem reset_to_unlisted_commit_breaks_head_invariant :
  let fs1 := snd (reset (Some "c1") Scenario.S2) in
  let r := reset (Some "c2") fs1 in
  head_parent_in_manifest Scenario.S2
  /\ head_parent_in_manifest fs1
  /\ is_Some (history_local fs1 !! "main" ≫= fun d => bd_masters d !! "c2")
  /\ history_local fs1 !! "main" ≫= bd_manifest = Some ["c1"]
  /\ fst r = Throw (Error dirty_message)
  /\ active_parent <$> art_json (snd r) = Some (Some "c2")
  /\ history_local (snd r) !! "main" ≫= bd_manifest = Some ["c1"]
  /\ ~ head_parent_in_manifest (snd r).
Proof.
  cbv zeta. split_conj; try by_eval.
  - vm_compute; apply list_elem_of_In; simpl; tauto.
  - vm_compute; apply list_elem_of_In; simpl; tauto.
  - vm_compute. eexists. reflexivity.
  - vm_compute. intros H. apply list_elem_of_In in H. simpl in H.
    destruct H as [H|[]]. discriminate H.
Qed.

(** C5 (the code at the failing input). A stage directory that exists
    with an empty change set (here after [add] of an unchanged file) does
    not make [commit] fail: a commit object without parts is written, the
    manifest grows and the head moves. *)
Theorem commit_accepts_empty_change_set :
  let staged := snd (add Scenario.no_ignore "a.txt" Scenario.S1_clean) in
  let r := commit Scenario.toy_sha1 9 "empty" staged in
  is_Some (stage staged)
  /\ getStagedChanges staged = []
  /\ fst r = Return "[main c9] empty"
  /\ active_parent <$> art_json (snd r) = Some (Some "c9")
  /\ history_local (snd r) !! "main" ≫= bd_manifest = Some ["c1"; "c9"]
  /\ (history_local (snd r) !! "main" ≫= fun d => bd_masters d !! "c9")
     = Some {| cm_hash := "c9"; cm_message := "empty"; cm_timestamp := 9;
               cm_parent := Some "c1"; cm_parts := Some []; cm_changes := None |}.
Proof.
  cbv zeta. split_conj; try by_eval.
  vm_compute. eexists. reflexivity.
Qed.

(** C9 (the code at the failing input). [add] of an unchanged tracked
    file persists an empty change mapping as one part file
    [part.0.json] listed in the manifest, where [savePaginatedChanges] and
    the part writing of [commit] write no part. *)
Theorem add_writes_an_empty_part :
  let r := add Scenario.no_ignore "a.txt" Scenario.S1_clean in
  fst r = Return "Added 1 file(s) to stage."
  /\ getStagedChanges (snd r) = []
  /\ stage (snd r)
     = Some {| pd_manifest := Some ["part.0.json"];
               pd_parts := {[ "part.0.json" := [] ]} |}
  /\ savePaginatedChanges [] = {| pd_manifest := Some []; pd_parts := ∅ |}
  /\ (forall commitHash, Pager.run (part_name (commitHash +:+ ".")) true true [] = []).
Proof.
  cbv zeta. split_conj; by_eval.
Qed.

(** * Further properties of the code *)

(** ** Further properties of the delta engine *)

(** X1. The delta engine of [add] yields no operation exactly when the
    previous and the current content are the same string. *)
Theorem delta_empty_iff_identical (previousContent currentContent : string) :
  Delta.delta previousContent currentContent = [] <-> previousContent = currentContent.
Proof.
  split.
  - intros Hempty.
    pose proof (edit_script_replay previousContent currentContent _ _ _
                  (start_of_spec previousContent currentContent)
                  (ends_of_spec previousContent currentContent)) as Hreplay.
    rewrite <- delta_edit_script, Hempty in Hreplay. done.
  - intros ->. apply delta_identical.
Qed.

(** X2. Every operation that the delta engine emits is in bounds: a
    delete has a positive length, lies inside the previous content and
    records the characters it removes; an insert has a non-empty content
    that is the slice of the current content at its position.  There are
    at most two operations. *)
Theorem delta_operations_in_bounds (previousContent currentContent : string) :
  Forall (operation_in_bounds previousContent currentContent)
    (Delta.delta previousContent currentContent)
  /\ (List.length (Delta.delta previousContent currentContent) <= 2)%nat.
Proof.
  rewrite delta_edit_script.
  destruct (start_of_spec previousContent currentContent) as (S1 & S2 & S3 & _).
  destruct (ends_of_spec previousContent currentContent) as (E1 & E2 & E3 & E4 & E5 & _).
  set (s := Delta.start_of previousContent currentContent) in *.
  destruct (Delta.ends_of previousContent currentContent) as [oe ne]; simpl in *.
  unfold edit_script.
  destruct (Z.ltb_spec 0 (oe - s + 1)) as [Hdel|Hdel];
    destruct (Z.ltb_spec 0 (Js.length (Js.slice currentContent s (ne + 1)))) as [Hins|Hins];
    simpl; (split; [|lia]); repeat constructor; try lia;
    try (rewrite js_slice_length in * by lia; lia);
    try (f_equal; lia);
    try (rewrite js_slice_length by lia; f_equal; lia).
Qed.

(** ** Keys of objects stay distinct *)

Lemma obj_keys_set {V} file (v : V) (o : Obj.t V) :
  Obj.keys (Obj.set file v o)
  = if decide (file ∈ Obj.keys o) then Obj.keys o else Obj.keys o ++ [file].
Proof.
  induction o as [|[k' v'] o IH]; simpl; [done|].
  destruct (decide (k' = file)) as [->|Hne]; simpl.
  - rewrite decide_True; [done | by left].
  - rewrite IH. destruct (decide (file ∈ Obj.keys o)) as [Hin|Hnotin].
    + rewrite decide_True; [done | by right].
    + rewrite decide_False; [done|].
      intros Hin. apply elem_of_cons in Hin as [?|?]; congruence.
Qed.

Lemma obj_set_NoDup {V} file (v : V) (o : Obj.t V) :
  NoDup (Obj.keys o) -> NoDup (Obj.keys (Obj.set file v o)).
Proof.
  intros Hnd. rewrite obj_keys_set. case_decide; [done|].
  apply NoDup_app. split; [done|]. split; [|apply NoDup_singleton].
  intros x Hx Hy. apply list_elem_of_singleton in Hy. by subst.
Qed.

Lemma obj_keys_remove {V} file (o : Obj.t V) x :
  x ∈ Obj.keys (Obj.remove file o) -> x ∈ Obj.keys o /\ x <> file.
Proof.
  induction o as [|[k' v'] o IH]; simpl; [by intros ?%elem_of_nil|].
  destruct (decide (k' = file)) as [->|Hne]; simpl.
  - intros Hin. destruct (IH Hin). split; [by right | done].
  - intros Hin. apply elem_of_cons in Hin as [->|Hin]; [split; [by left | done]|].
    destruct (IH Hin). split; [by right | done].
Qed.

Lemma obj_remove_NoDup {V} file (o : Obj.t V) :
  NoDup (Obj.keys o) -> NoDup (Obj.keys (Obj.remove file o)).
Proof.
  induction o as [|[k' v'] o IH]; simpl; [done|].
  intros Hnd. apply NoDup_cons in Hnd as [Hfresh Hnd].
  destruct (decide (k' = file)); simpl; [by apply IH|].
  apply NoDup_cons. split; [|by apply IH].
  intros Hin. by apply obj_keys_remove in Hin as [? _].
Qed.

Lemma obj_assign_NoDup {V} (target source : Obj.t V) :
  NoDup (Obj.keys target) -> NoDup (Obj.keys (Obj.assign target source)).
Proof.
  unfold Obj.assign. revert target.
  induction source as [|[k v] source IH]; intros target Hnd; simpl; [done|].
  apply IH. by apply obj_set_NoDup.
Qed.

Lemma obj_get_None {V} file (o : Obj.t V) :
  Obj.get file o = None <-> file ∉ Obj.keys o.
Proof.
  induction o as [|[k' v'] o IH]; simpl.
  - split; [intros _; apply not_elem_of_nil | done].
  - destruct (decide (k' = file)) as [->|Hne].
    + split; [done|]. intros Hnotin. exfalso. apply Hnotin. by left.
    + rewrite IH, not_elem_of_cons. split; [by intros ? | by intros [_ ?]].
Qed.

Lemma obj_get_set {V} file other (v : V) (o : Obj.t V) :
  Obj.get other (Obj.set file v o)
  = if decide (file = other) then Some v else Obj.get other o.
Proof.
  induction o as [|[k' v'] o IH]; simpl.
  - destruct (decide (file = other)); done.
  - destruct (decide (k' = file)) as [->|Hne]; simpl.
    + destruct (decide (file = other)); done.
    + rewrite IH. destruct (decide (k' = other)) as [->|]; [|done].
      by rewrite decide_False by congruence.
Qed.

Lemma obj_get_remove {V} file other (o : Obj.t V) :
  Obj.get other (Obj.remove file o)
  = if decide (file = other) then None else Obj.get other o.
Proof.
  induction o as [|[k' v'] o IH]; simpl.
  - by destruct (decide (file = other)).
  - destruct (decide (k' = file)) as [->|Hne]; simpl.
    + rewrite IH. destruct (decide (file = other)); done.
    + rewrite IH. destruct (decide (k' = other)) as [->|]; [|done].
      by rewrite decide_False by congruence.
Qed.

Lemma getPaginatedChanges_NoDup directory :
  NoDup (Obj.keys (getPaginatedChanges directory)).
Proof.
  unfold getPaginatedChanges. destruct directory as [dir|]; [|constructor].
  destruct (pd_manifest dir) as [parts|]; [|constructor].
  assert (forall allChanges : Obj.t change,
             NoDup (Obj.keys allChanges) ->
             NoDup (Obj.keys
               (fold_left
                  (fun allChanges partName =>
                     match pd_parts dir !! partName with
                     | Some partData => Obj.assign allChanges partData
                     | None => allChanges
                     end) parts allChanges))) as Hfold.
  { induction parts as [|partName parts IH]; intros allChanges Hnd; simpl; [done|].
    apply IH. destruct (pd_parts dir !! partName); [by apply obj_assign_NoDup | done]. }
  apply Hfold. constructor.
Qed.

(** ** The paginated store read back *)

(** X3. Round trip of the paginated store: what [savePaginatedChanges]
    writes for a change set with distinct paths, [getPaginatedChanges]
    reads back as the same change set, in the same order. *)
Theorem save_load_round_trip (changes : Obj.t change) :
  NoDup (Obj.keys changes) ->
  getPaginatedChanges (Some (savePaginatedChanges changes)) = changes.
Proof.
  intros Hnd. apply (load_run (part_name EmptyString) true true changes); [|done].
  apply part_name_inj.
Qed.

Lemma save_load_round_trip_witness :
  getPaginatedChanges
    (Some (savePaginatedChanges [("a.txt", CreateFile "A"); ("b.txt", DeleteFile)]))
  = [("a.txt", CreateFile "A"); ("b.txt", DeleteFile)].
Proof.
  apply save_load_round_trip. apply (bool_decide_unpack _). vm_compute. exact I.
Defined.

(** ** Layout written by [savePaginatedChanges] *)

Lemma savePart_nonempty name st :
  Forall (fun part => snd part <> []) (Pager.parts st) ->
  Forall (fun part => snd part <> []) (Pager.parts (Pager.savePart name true st)).
Proof.
  intros Hall. unfold Pager.savePart.
  destruct (Pager.currentPartChanges st) as [|entry rest] eqn:Hcur; simpl; [done|].
  apply Forall_app. split; [done|]. by apply Forall_singleton.
Qed.

Lemma step_nonempty name guard st entry :
  Forall (fun part => snd part <> []) (Pager.parts st) ->
  Forall (fun part => snd part <> [])
    (Pager.parts (Pager.step name guard true st entry)).
Proof.
  intros Hall. unfold Pager.step. simpl.
  match goal with |- context [if ?c then _ else _] => destruct c end;
    [by apply savePart_nonempty | done].
Qed.

Lemma run_nonempty name guard entries :
  Forall (fun part => snd part <> []) (Pager.run name guard true entries).
Proof.
  unfold Pager.run. apply savePart_nonempty.
  assert (forall st, Forall (fun part => snd part <> []) (Pager.parts st) ->
            Forall (fun part => snd part <> [])
              (Pager.parts (fold_left (Pager.step name guard true) entries st))) as Hfold.
  { induction entries as [|entry entries IH]; intros st Hall; [done|].
    simpl. apply IH. by apply step_nonempty. }
  apply Hfold. constructor.
Qed.

Lemma run_names name guard skip entries :
  map fst (Pager.run name guard skip entries)
  = map name (seq 0 (List.length (Pager.run name guard skip entries))).
Proof.
  unfold Pager.run. apply (savePart_names name skip), fold_names. done.
Qed.

(** X4. Layout of a directory written by [savePaginatedChanges]: the
    manifest lists [part.0.json], ..., [part.(n-1).json] in order, each of
    them is a file of the directory and holds at least one change, the
    directory holds no other part file, and an empty change set gives an
    empty manifest. *)
Theorem save_layout (changes : Obj.t change) :
  let dir := savePaginatedChanges changes in
  exists n : nat,
    pd_manifest dir = Some (map (part_name EmptyString) (seq 0 n))
    /\ (forall i, (i < n)%nat ->
          exists part, pd_parts dir !! part_name EmptyString i = Some part /\ part <> [])
    /\ (forall name, is_Some (pd_parts dir !! name) ->
          exists i, (i < n)%nat /\ name = part_name EmptyString i)
    /\ (changes = [] -> n = 0%nat).
Proof.
  unfold savePaginatedChanges. simpl.
  set (written := Pager.run (part_name EmptyString) true true changes).
  pose proof (run_names (part_name EmptyString) true true changes) as Hnames.
  pose proof (run_nonempty (part_name EmptyString) true changes) as Hnonempty.
  fold written in Hnames, Hnonempty.
  assert (NoDup (map fst written)) as Hnd.
  { rewrite Hnames. apply NoDup_fmap_2; [apply part_name_inj | apply NoDup_seq]. }
  exists (List.length written). split; [by rewrite Hnames|]. split; [|split].
  - intros i Hi.
    destruct (lookup_lt_is_Some_2 written i Hi) as [[name part] Hlookup].
    assert (name = part_name EmptyString i) as ->.
    { apply (f_equal (fun l => l !! i)) in Hnames.
      rewrite !list_lookup_fmap, Hlookup, lookup_seq_lt in Hnames by done.
      simpl in Hnames. congruence. }
    exists part. split.
    + apply elem_of_list_to_map_1; [done|]. by eapply list_elem_of_lookup_2.
    + rewrite Forall_forall in Hnonempty.
      apply (Hnonempty (part_name EmptyString i, part)).
      by eapply list_elem_of_lookup_2.
  - intros name [part Hlookup]. apply elem_of_list_to_map_2 in Hlookup.
    apply list_elem_of_lookup_1 in Hlookup as [i Hi].
    exists i. split; [by eapply lookup_lt_Some|].
    apply (f_equal (fun l => l !! i)) in Hnames.
    rewrite !list_lookup_fmap, Hi, lookup_seq_lt in Hnames
      by (by eapply lookup_lt_Some).
    simpl in Hnames. congruence.
  - intros ->. done.
Qed.

(** ** [rm] *)



(** ** States have one entry per path *)

Lemma load_root_NoDup files partNames state root :
  NoDup (Obj.keys state) ->
  load_root files partNames state = Return root -> NoDup (Obj.keys root).
Proof.
  revert state; induction partNames as [|partName rest IH]; intros state Hnd; simpl.
  - by intros [= <-].
  - destruct (files !! partName) as [partData|]; [|done]. apply IH.
    clear IH. revert state Hnd.
    induction partData as [|file partData IHp]; intros state Hnd; simpl; [done|].
    apply IHp. by apply obj_set_NoDup.
Qed.

Lemma apply_change_NoDup state entry :
  NoDup (Obj.keys state) -> NoDup (Obj.keys (apply_change state entry)).
Proof.
  intros Hnd. unfold apply_change.
  destruct (snd entry); [by apply obj_set_NoDup | by apply obj_remove_NoDup
                        | by apply obj_set_NoDup].
Qed.

Lemma apply_commit_NoDup dir commitMaster state :
  NoDup (Obj.keys state) -> NoDup (Obj.keys (apply_commit dir commitMaster state)).
Proof.
  unfold apply_commit. generalize (full_changes dir commitMaster).
  intros changes. revert state.
  induction changes as [|entry changes IH]; intros state Hnd; simpl; [done|].
  apply IH. by apply apply_change_NoDup.
Qed.

Lemma replay_NoDup dir targetHash commits state :
  NoDup (Obj.keys state) -> NoDup (Obj.keys (replay dir targetHash commits state)).
Proof.
  revert state; induction commits as [|hash rest IH]; intros state Hnd; simpl; [done|].
  destruct (bd_masters dir !! hash); [|by apply IH].
  case_bool_decide; [by apply apply_commit_NoDup|].
  by apply IH, apply_commit_NoDup.
Qed.

Lemma getStateByHash_NoDup fs branchName targetHash state :
  getStateByHash fs branchName targetHash = Return state -> NoDup (Obj.keys state).
Proof.
  unfold getStateByHash.
  destruct (root_manifest fs); [|intros [= <-]; constructor].
  destruct (history_local fs !! branchName) as [dir|]; [|intros [= <-]; constructor].
  destruct (bd_manifest dir); [|intros [= <-]; constructor].
  destruct (load_root _ _ _) as [root|] eqn:Hroot; [|done].
  apply load_root_NoDup in Hroot; [|constructor].
  destruct (Js.falsy_opt targetHash); intros [= <-]; [done|].
  by apply replay_NoDup.
Qed.

(** ** The state at a listed commit *)

Lemma indexOf_spec hash commits :
  (hash ∈ commits -> 0 <= indexOf hash commits < Z.of_nat (List.length commits))
  /\ (hash ∉ commits -> indexOf hash commits = -1).
Proof.
  induction commits as [|h rest [IH1 IH2]]; simpl.
  - split; [by intros ?%elem_of_nil | done].
  - destruct (decide (h = hash)) as [->|Hne].
    + split; [lia|]. intros Hnot. exfalso. apply Hnot. by left.
    + split.
      * intros Hin. apply elem_of_cons in Hin as [?|Hin]; [congruence|].
        specialize (IH1 Hin). destruct (Z.eqb_spec (indexOf hash rest) (-1)); lia.
      * intros Hnot. apply not_elem_of_cons in Hnot as [_ Hnot].
        by rewrite (IH2 Hnot).
Qed.

Lemma replay_stops_at_target dir hash commitMaster commits state :
  bd_masters dir !! hash = Some commitMaster ->
  hash ∈ commits ->
  replay dir (Some hash) commits state
  = replay_chain dir (take (Z.to_nat (indexOf hash commits + 1)) commits) state.
Proof.
  intros Hmaster. revert state.
  induction commits as [|h rest IH]; intros state Hin; [by apply elem_of_nil in Hin|].
  simpl. destruct (decide (h = hash)) as [->|Hne].
  - rewrite Hmaster, bool_decide_eq_true_2 by done. simpl.
    by rewrite Hmaster.
  - apply elem_of_cons in Hin as [?|Hin]; [congruence|].
    destruct (indexOf_spec hash rest) as [Hidx _]. specialize (Hidx Hin).
    destruct (Z.eqb_spec (indexOf hash rest) (-1)); [lia|].
    replace (Z.to_nat (indexOf hash rest + 1 + 1))
      with (S (Z.to_nat (indexOf hash rest + 1))) by lia.
    simpl. destruct (bd_masters dir !! h).
    + rewrite bool_decide_eq_false_2 by congruence. by apply IH.
    + by apply IH.
Qed.

Lemma take_indexOf_last hash commits :
  hash ∈ commits ->
  last (take (Z.to_nat (indexOf hash commits + 1)) commits) = Some hash
  /\ hash ∈ take (Z.to_nat (indexOf hash commits + 1)) commits.
Proof.
  induction commits as [|h rest IH]; intros Hin; [by apply elem_of_nil in Hin|].
  simpl. destruct (decide (h = hash)) as [->|Hne].
  - simpl. split; [done | by left].
  - apply elem_of_cons in Hin as [?|Hin]; [congruence|].
    destruct (indexOf_spec hash rest) as [Hidx _]. specialize (Hidx Hin).
    destruct (Z.eqb_spec (indexOf hash rest) (-1)); [lia|].
    replace (Z.to_nat (indexOf hash rest + 1 + 1))
      with (S (Z.to_nat (indexOf hash rest + 1))) by lia.
    destruct (IH Hin) as [IHlast IHin]. simpl. split; [|by right].
    destruct (take (Z.to_nat (indexOf hash rest + 1)) rest) eqn:Htake; [done|].
    done.
Qed.

(** X7. Truncating the manifest of a branch after a listed commit whose
    master exists (the manifest write of [reset]) leaves the state at that
    commit as it was, and makes it the state at the last listed commit. *)
Theorem truncation_keeps_state_at_hash fs branchName dir commits hash commitMaster :
  history_local fs !! branchName = Some dir ->
  bd_manifest dir = Some commits ->
  bd_masters dir !! hash = Some commitMaster ->
  hash ∈ commits ->
  let kept := take (Z.to_nat (indexOf hash commits + 1)) commits in
  let fs' := snd (write_manifest branchName kept fs) in
  last kept = Some hash
  /\ getStateByHash fs' branchName (Some hash) = getStateByHash fs branchName (Some hash)
  /\ getStateByHash fs' branchName (last kept) = getStateByHash fs branchName (Some hash).
Proof.
  intros Hdir Hman Hmaster Hin kept fs'.
  destruct (take_indexOf_last hash commits Hin) as [Hlast Hkept]. fold kept in Hlast, Hkept.
  split; [done|]. rewrite Hlast.
  assert (getStateByHash fs' branchName (Some hash)
          = getStateByHash fs branchName (Some hash)) as Hsame; [|by split].
  unfold fs', write_manifest, update_branch_dir. rewrite Hdir. simpl.
  unfold getStateByHash. cbn [root_manifest root_parts history_local set_history_local].
  rewrite lookup_insert_eq, Hdir, Hman. simpl.
  destruct (root_manifest fs); [|done].
  destruct (load_root _ _ _); [|done].
  destruct (Js.falsy hash); [done|]. f_equal.
  rewrite (replay_stops_at_target _ hash commitMaster commits) by done.
  rewrite (replay_stops_at_target _ hash commitMaster kept) by done.
  fold kept.
  assert (take (Z.to_nat (indexOf hash kept + 1)) kept = kept) as ->.
  { unfold kept at 2 3.
    assert (indexOf hash kept = indexOf hash commits) as ->; [|by rewrite take_take, Nat.min_id].
    unfold kept. clear -Hin.
    induction commits as [|h rest IH]; [by apply elem_of_nil in Hin|].
    simpl. destruct (decide (h = hash)) as [->|Hne]; simpl; [by rewrite decide_True|].
    apply elem_of_cons in Hin as [?|Hin]; [congruence|].
    destruct (indexOf_spec hash rest) as [Hidx _]. specialize (Hidx Hin).
    destruct (Z.eqb_spec (indexOf hash rest) (-1)); [lia|].
    replace (Z.to_nat (indexOf hash rest + 1 + 1))
      with (S (Z.to_nat (indexOf hash rest + 1))) by lia.
    simpl. rewrite decide_False by done. rewrite (IH Hin).
    destruct (Z.eqb_spec (indexOf hash rest) (-1)); [lia | done]. }
  done.
Qed.

Lemma truncation_keeps_state_at_hash_witness :
  getStateByHash (snd (write_manifest "main" ["c1"] Scenario.S2)) "main" (Some "c1")
  = getStateByHash Scenario.S2 "main" (Some "c1").
Proof.
  apply (truncation_keeps_state_at_hash Scenario.S2 "main" Scenario.S2_main
           ["c1"; "c2"] "c1" (Scenario.master "c1" "first" 1 None)).
  - vm_compute; reflexivity.
  - reflexivity.
  - vm_compute; reflexivity.
  - by left.
Defined.

(** ** What [checkout] writes *)

Lemma write_state_lookup targetState work file :
  NoDup (Obj.keys targetState) ->
  write_state targetState work !! file
  = match Obj.get file targetState with
    | Some content => Some content
    | None => work !! file
    end.
Proof.
  unfold write_state. revert work.
  induction targetState as [|[k v] targetState IH]; intros work Hnd; simpl; [done|].
  apply NoDup_cons in Hnd as [Hfresh Hnd]. simpl in Hfresh. rewrite IH by done.
  destruct (decide (k = file)) as [->|Hne].
  - apply obj_get_None in Hfresh. rewrite Hfresh. apply lookup_insert_eq.
  - destruct (Obj.get file targetState); [done|]. by apply lookup_insert_ne.
Qed.

Lemma remove_stale_lookup currentState targetState work file :
  remove_stale currentState targetState work !! file
  = if bool_decide (file ∈ Obj.keys currentState)
       && Js.falsy_opt (Obj.get file targetState)
    then None else work !! file.
Proof.
  unfold remove_stale. generalize (Obj.keys currentState). intros keys. revert work.
  induction keys as [|k keys IH]; intros work; cbn [fold_left].
  - rewrite bool_decide_eq_false_2; [done | apply not_elem_of_nil].
  - rewrite IH. destruct (decide (k = file)) as [->|Hne].
    + rewrite (bool_decide_eq_true_2 (file ∈ file :: keys)) by (by left).
      cbn [andb].
      destruct (Js.falsy_opt (Obj.get file targetState)) eqn:Hf.
      * rewrite andb_true_r. case_bool_decide; [done | apply lookup_delete_eq].
      * by rewrite andb_false_r.
    + assert (bool_decide (file ∈ k :: keys) = bool_decide (file ∈ keys)) as ->.
      { apply bool_decide_ext. rewrite elem_of_cons.
        split; [intros [Heq|Hin]; [by subst | done] | by right]. }
      destruct (bool_decide (file ∈ keys) && Js.falsy_opt (Obj.get file targetState));
        [done|].
      destruct (Js.falsy_opt (Obj.get k targetState)); [|done].
      by apply lookup_delete_ne.
Qed.

(** The working tree after the two loops of [checkout]. *)
Lemma materialized_lookup currentState targetState work file :
  NoDup (Obj.keys targetState) ->
  write_state targetState (remove_stale currentState targetState work) !! file
  = match Obj.get file targetState with
    | Some content => Some content
    | None => if bool_decide (file ∈ Obj.keys currentState) then None else work !! file
    end.
Proof.
  intros Hnd. rewrite write_state_lookup by done.
  destruct (Obj.get file targetState) eqn:Hget; [done|].
  rewrite remove_stale_lookup, Hget. simpl. by rewrite andb_true_r.
Qed.

(** [checkout] of a branch that exists, step by step. *)
Lemma checkout_existing fs branchName dir force :
  history_local fs !! branchName = Some dir ->
  checkout branchName force fs
  = match art_json fs with
    | None => (Throw (ENOENT ".art/art.json"), fs)
    | Some head =>
        match getStateByHash fs (active_branch head) (active_parent head) with
        | Throw e => (Throw e, fs)
        | Return currentState =>
            if negb force && is_dirty (worktree fs) currentState
            then (Throw (Error dirty_message), fs)
            else
              match bd_manifest dir with
              | None =>
                  (Throw (ENOENT (".art/history/local/" +:+ branchName
                                  +:+ "/manifest.json")), fs)
              | Some commits =>
                  match getStateByHash fs branchName (last commits) with
                  | Throw e => (Throw e, fs)
                  | Return targetState =>
                      (Return ("Switched to branch " +:+ quoted branchName +:+ "."),
                       set_art_json
                         (Some (mk_head_state branchName (last commits)
                                  (remote head) (configuration head)))
                         (set_worktree
                            (write_state targetState
                               (remove_stale currentState targetState (worktree fs)))
                            fs))
                  end
              end
        end
    end.
Proof.
  intros Hdir.
  unfold checkout, bind, get_repo, read_art_json, lift, ret, throw, read_manifest,
    modify, write_art_json.
  rewrite Hdir. simpl.
  destruct (art_json fs) as [head|]; [|done]. simpl.
  destruct (getStateByHash fs (active_branch head) (active_parent head)); [|done].
  simpl. destruct (negb force && is_dirty (worktree fs) _); [done|]. simpl.
  rewrite Hdir. destruct (bd_manifest dir); [|done]. simpl.
  destruct (getStateByHash fs branchName (last l)); done.
Qed.



(** X9. [checkout] with [force] of an existing branch is idempotent: a
    second run returns the same result and leaves the same repository. *)
Theorem forced_checkout_idempotent fs branchName dir :
  history_local fs !! branchName = Some dir ->
  checkout branchName true (snd (checkout branchName true fs))
  = checkout branchName true fs.
Proof.
  intros Hdir. rewrite (checkout_existing fs _ _ _ Hdir).
  destruct (art_json fs) as [head|] eqn:Hhead;
    [|simpl; by rewrite (checkout_existing fs _ _ _ Hdir), Hhead].
  destruct (getStateByHash fs (active_branch head) (active_parent head))
    as [currentState|] eqn:Hcur;
    [|simpl; by rewrite (checkout_existing fs _ _ _ Hdir), Hhead, Hcur].
  simpl.
  destruct (bd_manifest dir) as [commits|] eqn:Hman;
    [|simpl; by rewrite (checkout_existing fs _ _ _ Hdir), Hhead, Hcur, Hman].
  destruct (getStateByHash fs branchName (last commits)) as [targetState|] eqn:Htgt;
    [|simpl; by rewrite (checkout_existing fs _ _ _ Hdir), Hhead, Hcur, Hman, Htgt].
  simpl.
  set (work1 := write_state targetState
                  (remove_stale currentState targetState (worktree fs))).
  set (head1 := mk_head_state branchName (last commits) (remote head)
                  (configuration head)).
  rewrite (checkout_existing _ branchName dir); [|done].
  cbn [art_json set_art_json set_worktree worktree active_branch active_parent head1
       remote configuration].
  change (getStateByHash (set_art_json ?h (set_worktree ?w fs)))
    with (getStateByHash fs).
  unfold head1 at 1 2. cbn [active_branch active_parent]. rewrite Htgt, Hman. simpl.
  rewrite Htgt. f_equal.
  unfold set_art_json, set_worktree. cbn. f_equal.
  pose proof (getStateByHash_NoDup _ _ _ _ Htgt) as Hnd.
  apply map_eq. intros file. rewrite materialized_lookup by done.
  unfold work1. rewrite materialized_lookup by done.
  destruct (Obj.get file targetState) eqn:Hget; [done|].
  apply obj_get_None in Hget. by rewrite (bool_decide_eq_false_2 _ Hget).
Qed.

Lemma forced_checkout_idempotent_witness :
  checkout "main" true (snd (checkout "main" true Scenario.S1_edited))
  = checkout "main" true Scenario.S1_edited.
Proof.
  apply (forced_checkout_idempotent Scenario.S1_edited "main" S1_main).
  vm_compute; reflexivity.
Defined.

(** ** [reset] to a listed commit *)

Section Reset.

Local Arguments Js.slice : simpl never.

Local Opaque checkout.

Lemma reset_listed fs hash head dir commits commitMaster :
  hash <> EmptyString ->
  art_json fs = Some head ->
  history_local fs !! active_branch head = Some dir ->
  bd_masters dir !! hash = Some commitMaster ->
  bd_manifest dir = Some commits ->
  hash ∈ commits ->
  reset (Some hash) fs
  = let kept := take (Z.to_nat (indexOf hash commits + 1)) commits in
    let moved :=
      set_history_local
        (<[active_branch head := set_bd_manifest kept dir]> (history_local fs))
        (set_art_json (Some (set_active_parent (Some hash) head))
           (set_stage None fs)) in
    match checkout (active_branch head) false moved with
    | (Return _, fs') =>
        (Return ("Branch is now at " +:+ Js.slice hash 0 7
                 +:+ ". Working directory updated."), fs')
    | (Throw e, fs') => (Throw e, fs')
    end.
Proof.
  intros Hne Hhead Hdir Hmaster Hman Hin.
  destruct (indexOf_spec hash commits) as [Hidx _]. specialize (Hidx Hin).
  unfold reset, bind, modify, read_art_json, get_repo, write_art_json,
    read_manifest, write_manifest, update_branch_dir, ret, throw.
  destruct hash as [|c hash']; [done|].
  cbn [Js.falsy_opt Js.falsy default from_option id].
  set (hash := String c hash') in *. clearbody hash.
  simpl. rewrite Hhead. simpl. rewrite Hdir. simpl. rewrite Hmaster. simpl.
  rewrite Hdir, Hman. simpl.
  destruct (Z.eqb_spec (indexOf hash commits) (-1)) as [Heq|_]; [lia|].
  simpl. rewrite Hdir. simpl.
  match goal with |- context [checkout ?b ?f ?s] =>
    destruct (checkout b f s) as [[?|?] ?] end; done.
Qed.

Local Transparent checkout.



End Reset.

(** ** [commit] *)

Lemma for_each_write_part branchName written fs dir :
  history_local fs !! branchName = Some dir ->
  for_each (write_part branchName) written fs
  = (Return tt,
     set_history_local (<[branchName := with_parts written dir]> (history_local fs)) fs).
Proof.
  revert fs dir; induction written as [|part written IH]; intros fs dir Hdir.
  - unfold with_parts. simpl. unfold ret. f_equal.
    destruct dir. simpl. rewrite insert_id by done. by destruct fs.
  - cbn [for_each]. unfold bind at 1.
    unfold write_part at 1, update_branch_dir. rewrite Hdir.
    rewrite (IH _ (mk_branch_dir (bd_manifest dir) (bd_masters dir)
                     (<[fst part := snd part]> (bd_parts dir))));
      [|cbn [history_local set_history_local]; apply lookup_insert_eq].
    f_equal. unfold set_history_local. cbn. f_equal.
    by rewrite insert_insert_eq.
Qed.

(** X11. [commit] throws before writing anything when the message is
    empty or when there is no stage directory. *)
Theorem commit_without_stage sha1_hex now message fs :
  (message = EmptyString ->
   commit sha1_hex now message fs = (Throw (Error "A commit message is required."), fs))
  /\ (message <> EmptyString -> stage fs = None ->
      commit sha1_hex now message fs
      = (Throw (Error "Nothing to commit (stage is empty)."), fs)).
Proof.
  split.
  - by intros ->.
  - intros Hne Hstage. unfold commit. destruct message; [done|]. simpl.
    unfold bind, get_repo. by rewrite Hstage.
Qed.

Lemma commit_without_stage_witness :
  commit Scenario.toy_sha1 9 "first" Scenario.S1_clean
  = (Throw (Error "Nothing to commit (stage is empty)."), Scenario.S1_clean).
Proof.
  apply (proj2 (commit_without_stage Scenario.toy_sha1 9 "first" Scenario.S1_clean));
    [discriminate | reflexivity].
Defined.

Section Commit.

Local Arguments Js.slice : simpl never.
Local Arguments Pager.run : simpl never.
Local Arguments Json.stringify : simpl never.
Local Arguments Json.of_Z : simpl never.

(** What [commit] leaves behind when something is staged. *)
Lemma commit_staged sha1_hex now message fs staged head dir commits :
  message <> EmptyString ->
  stage fs = Some staged ->
  art_json fs = Some head ->
  history_local fs !! active_branch head = Some dir ->
  bd_manifest dir = Some commits ->
  let commitHash :=
    sha1_hex (Json.stringify (Json.of_changes (getStagedChanges fs))
              +:+ Json.of_Z now +:+ message) in
  let written :=
    Pager.run (part_name (commitHash +:+ ".")) true true (getStagedChanges fs) in
  let commitMaster :=
    {| cm_hash := commitHash; cm_message := message; cm_timestamp := now;
       cm_parent := active_parent head; cm_parts := Some (map fst written);
       cm_changes := None |} in
  commit sha1_hex now message fs
  = (Return ("[" +:+ active_branch head +:+ " " +:+ Js.slice commitHash 0 7
             +:+ "] " +:+ message),
     set_stage None
       (set_art_json (Some (set_active_parent (Some commitHash) head))
          (set_history_local
             (<[active_branch head :=
                  mk_branch_dir (Some (commits ++ [commitHash]))
                    (<[commitHash := commitMaster]> (bd_masters dir))
                    (bd_parts (with_parts written dir))]> (history_local fs))
             fs))).
Proof.
  intros Hne Hstage Hhead Hdir Hman commitHash written commitMaster.
  unfold commit. destruct message; [done|]. cbn [Js.falsy].
  unfold bind at 1. unfold get_repo at 1. rewrite Hstage.
  unfold bind at 1. unfold read_art_json at 1. rewrite Hhead.
  fold commitHash. fold written.
  unfold bind at 1. rewrite (for_each_write_part _ _ _ dir Hdir).
  unfold bind, write_master, read_manifest, write_manifest, update_branch_dir,
    write_art_json, modify, ret.
  repeat first
    [ rewrite lookup_insert_eq
    | rewrite Hman
    | progress cbn [history_local set_history_local bd_manifest bd_masters bd_parts
                    with_parts set_bd_manifest fst snd] ].
  f_equal. unfold set_stage, set_art_json, set_history_local. cbn.
  f_equal. by rewrite !insert_insert_eq.
Qed.

(** X12. [commit] with a message and a stage directory writes the part
    files and the master of the new commit to the directory of the active
    branch, appends the hash to its manifest, points the head at it and
    removes the stage; the working tree and the remote mirror are not
    touched, and the parent of the head is a commit of the manifest. *)
Theorem commit_appends_to_the_branch sha1_hex now message fs staged head dir commits :
  message <> EmptyString ->
  stage fs = Some staged ->
  art_json fs = Some head ->
  history_local fs !! active_branch head = Some dir ->
  bd_manifest dir = Some commits ->
  let commitHash :=
    sha1_hex (Json.stringify (Json.of_changes (getStagedChanges fs))
              +:+ Json.of_Z now +:+ message) in
  let written :=
    Pager.run (part_name (commitHash +:+ ".")) true true (getStagedChanges fs) in
  let commitMaster :=
    {| cm_hash := commitHash; cm_message := message; cm_timestamp := now;
       cm_parent := active_parent head; cm_parts := Some (map fst written);
       cm_changes := None |} in
  let r := commit sha1_hex now message fs in
  fst r = Return ("[" +:+ active_branch head +:+ " " +:+ Js.slice commitHash 0 7
                  +:+ "] " +:+ message)
  /\ art_json (snd r) = Some (set_active_parent (Some commitHash) head)
  /\ history_local (snd r)
     = <[active_branch head :=
           mk_branch_dir (Some (commits ++ [commitHash]))
             (<[commitHash := commitMaster]> (bd_masters dir))
             (bd_parts (with_parts written dir))]> (history_local fs)
  /\ stage (snd r) = None
  /\ worktree (snd r) = worktree fs
  /\ history_remote (snd r) = history_remote fs
  /\ head_parent_in_manifest (snd r).
Proof.
  intros Hne Hstage Hhead Hdir Hman commitHash written commitMaster r.
  unfold r. rewrite (commit_staged _ _ _ _ _ _ _ _ Hne Hstage Hhead Hdir Hman).
  cbn [fst snd]. split_conj; try done.
  unfold head_parent_in_manifest. cbn. rewrite lookup_insert_eq. cbn.
  apply elem_of_app. right. by left.
Qed.

Lemma commit_appends_to_the_branch_witness :
  history_local
    (snd (commit Scenario.toy_sha1 9 "cap"
            (snd (add Scenario.no_ignore "a.txt" Scenario.S1_edited))))
    !! "main" ≫= bd_manifest = Some ["c1"; "c9"].
Proof.
  pose proof (commit_appends_to_the_branch Scenario.toy_sha1 9 "cap"
                (snd (add Scenario.no_ignore "a.txt" Scenario.S1_edited))
                {| pd_manifest := Some ["part.0.json"];
                   pd_parts := {[ "part.0.json" := Scenario.c2_changes ]} |}
                (Scenario.head_at "main" (Some "c1")) S1_main ["c1"]) as H.
  destruct H as (_ & _ & Hlocal & _);
    [discriminate | vm_compute; reflexivity | reflexivity | vm_compute; reflexivity
    | reflexivity |].
  rewrite Hlocal. vm_compute. reflexivity.
Defined.

(** ** The state at a new commit *)

Lemma with_parts_lookup written dir partName :
  NoDup (map fst written) ->
  bd_parts (with_parts written dir) !! partName
  = match (list_to_map written : gmap string (Obj.t change)) !! partName with
    | Some part => Some part
    | None => bd_parts dir !! partName
    end.
Proof.
  unfold with_parts. cbn [bd_parts]. generalize (bd_parts dir) as files.
  induction written as [|[name part] written IH]; intros files Hnd.
  - cbn. by rewrite lookup_empty.
  - apply NoDup_cons in Hnd as [Hfresh Hnd]. cbn [fold_left list_to_map foldr fst snd].
    rewrite IH by done. cbn [uncurry fst snd].
    destruct (decide (name = partName)) as [->|Hne].
    + rewrite lookup_insert_eq.
      by rewrite (not_elem_of_list_to_map_1 _ _ Hfresh), lookup_insert_eq.
    + rewrite !(lookup_insert_ne _ name partName) by done. done.
Qed.

Lemma fold_assign_ext (files1 files2 : gmap string (Obj.t change)) parts acc :
  (forall partName, partName ∈ parts -> files1 !! partName = files2 !! partName) ->
  fold_left
    (fun fullChanges partName =>
       match files1 !! partName with
       | Some partData => Obj.assign fullChanges partData
       | None => fullChanges
       end) parts acc
  = fold_left
      (fun fullChanges partName =>
         match files2 !! partName with
         | Some partData => Obj.assign fullChanges partData
         | None => fullChanges
         end) parts acc.
Proof.
  revert acc; induction parts as [|partName parts IH]; intros acc Hagree; [done|].
  cbn [fold_left]. rewrite (Hagree partName) by by left.
  apply IH. intros other Hother. apply Hagree. by right.
Qed.

Lemma replay_then_target dir targetHash commitMaster commits state :
  targetHash ∉ commits ->
  bd_masters dir !! targetHash = Some commitMaster ->
  replay dir (Some targetHash) (commits ++ [targetHash]) state
  = apply_commit dir commitMaster (replay_chain dir commits state).
Proof.
  revert state; induction commits as [|hash commits IH]; intros state Hfresh Hm.
  - cbn. rewrite Hm. by rewrite bool_decide_eq_true_2.
  - apply not_elem_of_cons in Hfresh as [Hne Hfresh]. cbn [app replay replay_chain fold_left].
    destruct (bd_masters dir !! hash) as [m|]; [|by apply IH].
    rewrite bool_decide_eq_false_2 by congruence. by apply IH.
Qed.

Lemma replay_chain_ext dir1 dir2 commits state :
  (forall hash, hash ∈ commits ->
     bd_masters dir1 !! hash = bd_masters dir2 !! hash
     /\ forall m, bd_masters dir2 !! hash = Some m ->
                  full_changes dir1 m = full_changes dir2 m) ->
  replay_chain dir1 commits state = replay_chain dir2 commits state.
Proof.
  revert state; induction commits as [|hash commits IH]; intros state Hagree; [done|].
  cbn [replay_chain fold_left].
  destruct (Hagree hash) as [Hm Hfull]; [by left|]. rewrite Hm.
  assert (forall st, replay_chain dir1 commits st = replay_chain dir2 commits st) as Hrest.
  { intros st. apply IH. intros other Hother. apply Hagree. by right. }
  unfold replay_chain in Hrest.
  destruct (bd_masters dir2 !! hash) as [m|]; [|apply Hrest].
  unfold apply_commit. rewrite (Hfull m eq_refl). apply Hrest.
Qed.

Lemma state_at_tip fs head dir commits :
  history_local fs !! active_branch head = Some dir ->
  bd_manifest dir = Some commits ->
  head_at_tip head commits ->
  forall rootMaster, root_manifest fs = Some rootMaster ->
  getStateByHash fs (active_branch head) (active_parent head)
  = match load_root (root_parts fs) rootMaster [] with
    | Return state => Return (replay_chain dir commits state)
    | Throw e => Throw e
    end.
Proof.
  intros Hdir Hman (Hnd & Hlast & Hne) rootMaster Hroot.
  unfold getStateByHash. rewrite Hroot, Hdir, Hman.
  destruct (load_root _ _ _) as [state|e]; [|done].
  destruct (active_parent head) as [parent|] eqn:Hparent.
  - destruct parent as [|c parent]; [done|]. cbn [Js.falsy_opt Js.falsy].
    by rewrite (replay_to_last dir _ commits state Hnd Hlast).
  - apply last_None in Hlast as ->. done.
Qed.



End Commit.

(** ** [add] of one file *)

Section Add.

Local Arguments Pager.run : simpl never.

Lemma delta_replays previousContent currentContent :
  Replay.apply_operations (Delta.delta previousContent currentContent) previousContent
  = currentContent.
Proof.
  rewrite delta_edit_script.
  apply edit_script_replay; [apply start_of_spec | apply ends_of_spec].
Qed.

Lemma delta_of_an_edit previousContent currentContent :
  currentContent <> previousContent ->
  (Z.of_nat (List.length (Delta.delta previousContent currentContent)) >? 0) = true.
Proof.
  intros Hdiff. pose proof (delta_replays previousContent currentContent) as Hreplay.
  destruct (Delta.delta previousContent currentContent); [|done].
  cbn in Hreplay. congruence.
Qed.



End Add.

(** ** The decision table of [merge] *)

Lemma merge_file_tree targetBranch baseState activeState targetState acc filePath :
  fst (merge_file targetBranch baseState activeState targetState acc filePath) !! filePath
  = match merge_change targetBranch baseState activeState targetState filePath with
    | Some (CreateFile content) => Some content
    | Some DeleteFile => None
    | _ => fst acc !! filePath
    end.
Proof.
  unfold merge_file, merge_change.
  repeat (case_bool_decide; simpl; try done);
    try destruct (Obj.get filePath targetState); simpl;
    rewrite ?lookup_insert_eq, ?lookup_delete_eq; done.
Qed.

Lemma merge_fold_tree targetBranch baseState activeState targetState files acc filePath :
  NoDup files -> filePath ∈ files ->
  fst (fold_left (merge_file targetBranch baseState activeState targetState) files acc)
  !! filePath
  = match merge_change targetBranch baseState activeState targetState filePath with
    | Some (CreateFile content) => Some content
    | Some DeleteFile => None
    | _ => fst acc !! filePath
    end.
Proof.
  intros Hnd Hin. revert acc.
  induction files as [|first files IH]; intros acc; [by apply elem_of_nil in Hin|].
  apply NoDup_cons in Hnd as [Hfresh Hnd]. simpl.
  destruct (decide (filePath = first)) as [->|Hne].
  - rewrite merge_fold_other by done. apply merge_file_tree.
  - apply elem_of_cons in Hin as [?|Hin]; [done|]. rewrite IH by done.
    rewrite merge_file_other by done. done.
Qed.

Lemma merge_change_absent targetBranch baseState activeState targetState filePath :
  filePath ∉ Obj.keys activeState -> filePath ∉ Obj.keys targetState ->
  merge_change targetBranch baseState activeState targetState filePath = None.
Proof.
  intros Ha Ht. apply obj_get_None in Ha, Ht. unfold merge_change.
  by rewrite Ha, Ht, bool_decide_eq_true_2.
Qed.


(** Where the paths are not writable the loop stops: on [S_docs] the
    merge of [main] removes [docs/readme.md], finds the directory [docs]
    where it is to write the file [docs], and throws; the stage is left
    without a manifest. *)
Example merge_stops_at_a_directory :
  fst (merge "main" S_docs) = Throw (EISDIR "docs")
  /\ worktree (snd (merge "main" S_docs)) = ∅
  /\ (stage (snd (merge "main" S_docs)) ≫= pd_manifest) = None.
Proof. split_conj; by_eval. Qed.


(** ** [branch] *)

Lemma insert_known_subseteq {V} (m source : gmap string V) k x :
  m ⊆ source -> source !! k = Some x -> m ⊆ <[k := x]> m /\ <[k := x]> m ⊆ source.
Proof.
  intros Hsub Hk. split.
  - apply map_subseteq_spec. intros k' x' Hk'.
    destruct (decide (k = k')) as [<-|Hne].
    + rewrite lookup_insert_eq.
      rewrite map_subseteq_spec in Hsub. apply Hsub in Hk'. congruence.
    + by rewrite lookup_insert_ne.
  - by apply insert_subseteq_l.
Qed.

Lemma copy_parts_spec source parts destination :
  bd_parts destination ⊆ bd_parts source ->
  let copied :=
    fold_left
      (fun dest partName =>
         match Some source ≫= (fun d => bd_parts d !! partName) with
         | Some sourcePart =>
             mk_branch_dir (bd_manifest dest) (bd_masters dest)
               (<[partName := sourcePart]> (bd_parts dest))
         | None => dest
         end)
      parts destination in
  bd_manifest copied = bd_manifest destination
  /\ bd_masters copied = bd_masters destination
  /\ bd_parts destination ⊆ bd_parts copied
  /\ bd_parts copied ⊆ bd_parts source
  /\ Forall (fun p => bd_parts copied !! p = bd_parts source !! p) parts.
Proof.
  revert destination.
  induction parts as [|partName parts IH]; intros destination Hsub; cbn zeta.
  - done.
  - cbn [fold_left]. cbn [mbind option_bind].
    destruct (bd_parts source !! partName) as [sourcePart|] eqn:Hpart.
    + destruct (insert_known_subseteq _ _ _ _ Hsub Hpart) as [Hgrow Hstay].
      set (next := mk_branch_dir _ _ _).
      destruct (IH next Hstay) as (Hm & Hms & Hmono & Hin & Hall).
      split_conj; try done.
      * by etrans.
      * constructor; [|done].
        rewrite Hpart. rewrite map_subseteq_spec in Hmono. apply Hmono.
        apply lookup_insert_eq.
    + destruct (IH destination Hsub) as (Hm & Hms & Hmono & Hin & Hall).
      split_conj; try done.
      constructor; [|done]. rewrite Hpart.
      match goal with |- ?l = None => destruct l as [x|] eqn:Hx; [|done] end.
      rewrite map_subseteq_spec in Hin. apply Hin in Hx. congruence.
Qed.

Lemma copy_commit_spec source sourceRemote destination hash m :
  copied_from source destination ->
  bd_masters source !! hash = Some m ->
  let copied := copy_commit (Some source) sourceRemote destination hash in
  bd_manifest copied = bd_manifest destination
  /\ copied_from source copied
  /\ bd_masters destination ⊆ bd_masters copied
  /\ bd_parts destination ⊆ bd_parts copied
  /\ bd_masters copied !! hash = Some m
  /\ parts_agree source copied m.
Proof.
  intros [Hmasters Hparts] Hm. unfold copy_commit. cbn [mbind option_bind].
  rewrite Hm.
  destruct (insert_known_subseteq _ _ _ _ Hmasters Hm) as [Hgrow Hstay].
  unfold parts_agree.
  destruct (cm_parts m) as [parts|]; cbn [default from_option id].
  - set (start := mk_branch_dir _ _ _).
    destruct (copy_parts_spec source parts start Hparts)
      as (Hman & Hms & Hmono & Hin & Hall).
    cbn zeta in *. cbn [mbind option_bind] in *.
    split_conj; try done.
    + split; [by rewrite Hms | done].
    + by rewrite Hms.
    + rewrite Hms. apply lookup_insert_eq.
  - cbn zeta. split_conj; try done. apply lookup_insert_eq.
Qed.

Lemma copy_commits_spec source sourceRemote commits destination :
  copied_from source destination ->
  Forall (fun hash => is_Some (bd_masters source !! hash)) commits ->
  let copied :=
    fold_left (copy_commit (Some source) sourceRemote) commits destination in
  bd_manifest copied = bd_manifest destination
  /\ copied_from source copied
  /\ bd_masters destination ⊆ bd_masters copied
  /\ bd_parts destination ⊆ bd_parts copied
  /\ Forall (fun hash =>
               bd_masters copied !! hash = bd_masters source !! hash
               /\ forall m, bd_masters source !! hash = Some m ->
                            parts_agree source copied m) commits.
Proof.
  revert destination.
  induction commits as [|hash commits IH]; intros destination Hfrom Hall; cbn zeta.
  - done.
  - cbn [fold_left]. apply Forall_cons in Hall as [[m Hm] Hall].
    destruct (copy_commit_spec source sourceRemote destination hash m Hfrom Hm)
      as (Hman & Hfrom' & Hgrow & Hgrowp & Hhash & Hagree).
    cbn zeta in *.
    destruct (IH _ Hfrom' Hall) as (Hman2 & Hfrom2 & Hgrow2 & Hgrowp2 & Hrest).
    cbn zeta in *. split_conj.
    + congruence.
    + done.
    + by etrans.
    + by etrans.
    + constructor; [|done]. split.
      * rewrite Hm. rewrite map_subseteq_spec in Hgrow2. by apply Hgrow2.
      * intros m' Hm'. assert (m' = m) as -> by congruence.
        destruct Hfrom2 as [_ Hsub2].
        unfold parts_agree in *. rewrite Forall_forall in Hagree |- *.
        intros p Hp. specialize (Hagree p Hp).
        destruct (bd_parts source !! p) as [x|] eqn:Hx.
        -- rewrite map_subseteq_spec in Hgrowp2. by apply Hgrowp2.
        -- match goal with |- ?l = None => destruct l as [y|] eqn:Hy; [|done] end.
           rewrite map_subseteq_spec in Hsub2. apply Hsub2 in Hy. congruence.
Qed.

Lemma full_changes_agree source copied m :
  parts_agree source copied m -> full_changes copied m = full_changes source m.
Proof.
  unfold parts_agree, full_changes.
  destruct (cm_parts m) as [parts|]; cbn [default from_option id]; [|done].
  generalize (@nil (string * change)).
  induction parts as [|p parts IH]; intros acc Hall; [done|].
  apply Forall_cons in Hall as [Hp Hall]. cbn [fold_left]. rewrite Hp. by apply IH.
Qed.

Lemma replay_agree source copied targetHash commits state :
  Forall (fun hash =>
            bd_masters copied !! hash = bd_masters source !! hash
            /\ forall m, bd_masters source !! hash = Some m ->
                         parts_agree source copied m) commits ->
  replay copied targetHash commits state = replay source targetHash commits state.
Proof.
  revert state.
  induction commits as [|hash commits IH]; intros state Hall; [done|].
  apply Forall_cons in Hall as [[Hm Hagree] Hall]. cbn [replay]. rewrite Hm.
  destruct (bd_masters source !! hash) as [m|]; [|by apply IH].
  unfold apply_commit. rewrite (full_changes_agree source copied m) by by apply Hagree.
  case_bool_decide; [done|]. by apply IH.
Qed.

(** X16. [branch] with a fresh valid name, when every commit listed by
    the active branch has its master in that branch's directory: the new
    branch lists the same commits and reconstructs the same state at every
    hash; no other branch, nor the head, the working tree or the stage,
    is touched. *)
Theorem branch_create_copies_the_history name fs head source commits :
  valid_branch_name name ->
  history_local fs !! name = None ->
  art_json fs = Some head ->
  history_local fs !! active_branch head = Some source ->
  bd_manifest source = Some commits ->
  Forall (fun hash => is_Some (bd_masters source !! hash)) commits ->
  let r := branch (Some name) false fs in
  fst r = Return (BranchMessage ("Created branch " +:+ quoted name +:+ "."))
  /\ history_local (snd r) !! name ≫= bd_manifest = Some commits
  /\ (forall targetHash,
        getStateByHash (snd r) name targetHash
        = getStateByHash fs (active_branch head) targetHash)
  /\ (forall other, other <> name ->
        history_local (snd r) !! other = history_local fs !! other)
  /\ art_json (snd r) = art_json fs
  /\ worktree (snd r) = worktree fs
  /\ stage (snd r) = stage fs.
Proof.
  intros (Hne & Hillegal & Hcontrol & Hreserved) Hfree Hhead Hsource Hcommits Hall r.
  unfold r, branch, bind, get_repo, read_art_json, modify, ret, throw.
  destruct name as [|c name']; [done|]. cbn [Js.falsy_opt Js.falsy default from_option id].
  set (name := String c name') in *.
  rewrite Hillegal, Hcontrol, Hreserved. cbn [orb]. rewrite Hfree, Hhead.
  rewrite Hsource. cbn [mbind option_bind]. rewrite Hcommits.
  cbn [default from_option id].
  cbn [fst snd history_local history_remote set_history_local set_history_remote
       art_json worktree stage].
  assert (copied_from source (empty_branch_dir commits)) as Hfrom.
  { split; apply map_empty_subseteq. }
  destruct (copy_commits_spec source (history_remote fs !! active_branch head)
              commits _ Hfrom Hall) as (Hman & _ & _ & _ & Hagree).
  cbn zeta in *. set (created := fold_left _ commits _) in *.
  split_conj; try done.
  - rewrite lookup_insert_eq. cbn [mbind option_bind]. by rewrite Hman.
  - intros targetHash. unfold getStateByHash.
    cbn [root_manifest root_parts history_local set_history_local set_history_remote].
    rewrite lookup_insert_eq, Hsource, Hman, Hcommits. cbn [empty_branch_dir bd_manifest].
    destruct (root_manifest fs) as [rootMaster|]; [|done].
    destruct (load_root _ _ _) as [state|e]; [|done].
    destruct (Js.falsy_opt targetHash); [done|].
    by rewrite (replay_agree source created).
  - intros other Hother. by apply lookup_insert_ne.
Qed.

Lemma branch_create_copies_the_history_witness :
  getStateByHash (snd (branch (Some "feature") false Scenario.S2)) "feature" (Some "c1")
  = getStateByHash Scenario.S2 "main" (Some "c1").
Proof.
  destruct (branch_create_copies_the_history "feature" Scenario.S2
              (Scenario.head_at "main" (Some "c2")) Scenario.S2_main ["c1"; "c2"])
    as (_ & _ & Hstate & _).
  - repeat split; [discriminate | vm_compute; reflexivity..].
  - vm_compute; reflexivity.
  - reflexivity.
  - vm_compute; reflexivity.
  - reflexivity.
  - repeat constructor; apply (bool_decide_unpack _); vm_compute; exact I.
  - apply Hstate.
Defined.

(** X17. [branch] with [isDelete] on an existing branch: the active
    branch is refused and nothing is written; any other branch loses its
    local and its remote directory, and the head and the working tree are
    kept. *)
Theorem branch_delete_spares_the_active_branch name fs head dir :
  valid_branch_name name ->
  history_local fs !! name = Some dir ->
  art_json fs = Some head ->
  let r := branch (Some name) true fs in
  (active_branch head = name ->
     r = (Throw (Error ("Local branch " +:+ quoted name
                        +:+ " is in use and can't be deleted right now.")), fs))
  /\ (active_branch head <> name ->
      fst r = Return (BranchMessage ("Deleted local branch " +:+ quoted name +:+ "."))
      /\ history_local (snd r) = delete name (history_local fs)
      /\ history_remote (snd r) = delete name (history_remote fs)
      /\ art_json (snd r) = art_json fs
      /\ worktree (snd r) = worktree fs).
Proof.
  intros (Hne & Hillegal & Hcontrol & Hreserved) Hdir Hhead r.
  unfold r, branch, bind, get_repo, read_art_json, modify, ret, throw.
  destruct name as [|c name']; [done|]. cbn [Js.falsy_opt Js.falsy default from_option id].
  set (name := String c name') in *.
  rewrite Hillegal, Hcontrol, Hreserved. cbn [orb]. rewrite Hdir, Hhead.
  split.
  - intros Hactive. by rewrite (bool_decide_eq_true_2 _ Hactive).
  - intros Hother. by rewrite (bool_decide_eq_false_2 _ Hother).
Qed.

Lemma branch_delete_spares_the_active_branch_witness :
  history_local (snd (branch (Some "main") true Scenario.S5))
  = delete "main" (history_local Scenario.S5).
Proof.
  destruct (branch_delete_spares_the_active_branch "main" Scenario.S5
              (Scenario.head_at "x" (Some "c4"))
              (default (empty_branch_dir []) (history_local Scenario.S5 !! "main")))
    as [_ Hdelete].
  - repeat split; [discriminate | vm_compute; reflexivity..].
  - vm_compute; reflexivity.
  - reflexivity.
  - apply Hdelete. discriminate.
Defined.

(** ** [status] *)

Lemma status_fold shouldIgnore stagedFiles activeState allFiles
    untracked modified ignored :
  fold_left (status_file shouldIgnore stagedFiles activeState) allFiles
    (untracked, modified, ignored)
  = (untracked
       ++ map fst (List.filter (is_untracked shouldIgnore stagedFiles activeState) allFiles),
     modified ++ map fst (List.filter (is_modified stagedFiles activeState) allFiles),
     ignored
       ++ map fst (List.filter (is_ignored shouldIgnore stagedFiles activeState) allFiles)).
Proof.
  revert untracked modified ignored.
  induction allFiles as [|[file content] allFiles IH]; intros untracked modified ignored.
  - cbn. by rewrite !app_nil_r.
  - cbn [fold_left List.filter].
    unfold status_file at 2, is_untracked at 1, is_modified at 1, is_ignored at 1.
    cbn [fst snd].
    destruct (is_internal file); cbn [negb andb]; [apply IH|].
    destruct (has_member file stagedFiles);
      destruct (truthy_member file activeState);
      destruct (shouldIgnore file); cbn [negb andb];
      try destruct (bool_decide (Some content = Obj.get file activeState));
      cbn [negb andb]; rewrite IH; cbn [map fst]; by rewrite <- ?app_assoc.
Qed.

Lemma elem_of_classified (cond : string * string -> bool) (work : gmap string string) file :
  file ∈ map fst (List.filter cond (map_to_list work))
  <-> exists content, work !! file = Some content /\ cond (file, content) = true.
Proof.
  rewrite list_elem_of_In, in_map_iff. split.
  - intros ([file' content] & Hfst & Hin). cbn in Hfst. subst file'.
    apply filter_In in Hin as [Hin Hcond]. apply list_elem_of_In in Hin.
    apply elem_of_map_to_list in Hin. by exists content.
  - intros (content & Hlookup & Hcond). exists (file, content). split; [done|].
    apply filter_In. split; [|done].
    apply list_elem_of_In. by apply elem_of_map_to_list.
Qed.

Lemma has_member_own {V} k (o : Obj.t V) :
  inherited k = false -> has_member k o = bool_decide (is_Some (Obj.get k o)).
Proof. intros Hk. unfold has_member. rewrite Hk. apply orb_false_r. Qed.

Lemma truthy_member_own k (o : Obj.t string) :
  inherited k = false -> truthy_member k o = negb (Js.falsy_opt (Obj.get k o)).
Proof. intros Hk. unfold truthy_member. rewrite Hk. by destruct (Obj.get k o). Qed.



(** ** [stash] with [pop] *)

Lemma pop_fold_lookup stashChanges work filePath :
  NoDup (Obj.keys stashChanges) ->
  fold_left pop_change stashChanges work !! filePath
  = match Obj.get filePath stashChanges with
    | None => work !! filePath
    | Some (CreateFile content) => Some content
    | Some DeleteFile => None
    | Some (Ops changeSet) =>
        Some (Replay.apply_operations changeSet
                (default EmptyString (work !! filePath)))
    end.
Proof.
  revert work.
  induction stashChanges as [|[k v] stashChanges IH]; intros work Hnd; [done|].
  apply NoDup_cons in Hnd as [Hfresh Hnd]. cbn [fst] in Hfresh.
  cbn [fold_left]. rewrite IH by done.
  cbn [Obj.get]. destruct (decide (k = filePath)) as [->|Hne].
  - apply obj_get_None in Hfresh. rewrite Hfresh.
    unfold pop_change. cbn [fst snd].
    destruct v; by rewrite ?lookup_insert_eq, ?lookup_delete_eq.
  - assert (pop_change work (k, v) !! filePath = work !! filePath) as Hsame.
    { unfold pop_change. cbn [fst snd].
      destruct v; by rewrite ?lookup_insert_ne, ?lookup_delete_ne. }
    destruct (Obj.get filePath stashChanges) as [[| |]|]; by rewrite ?Hsame.
Qed.

Lemma pop_change_other work entry other :
  other <> fst entry -> pop_change work entry !! other = work !! other.
Proof.
  intros Hne. unfold pop_change.
  destruct (snd entry); by rewrite ?lookup_insert_ne, ?lookup_delete_ne.
Qed.

(** Without a clash between the paths, and with a file for every
    operation list, the loop runs to its end. *)
Lemma pop_changes_run initial paths stashChanges work :
  clash_free (tree_paths initial ++ paths) = true ->
  Forall (fun p => p <> EmptyString) paths ->
  NoDup (Obj.keys stashChanges) ->
  (forall p, p ∈ Obj.keys stashChanges -> p ∈ paths) ->
  (forall p changeSet, (p, Ops changeSet) ∈ stashChanges -> is_Some (work !! p)) ->
  (forall q, is_Some (work !! q) -> is_Some (initial !! q) \/ q ∈ paths) ->
  pop_changes initial stashChanges work
  = (None, fold_left pop_change stashChanges work).
Proof.
  intros Hfree Hne. revert work.
  induction stashChanges as [|[p fileChange] stashChanges IH];
    intros work Hnd Hpaths Hops Hwork; [done|].
  apply NoDup_cons in Hnd as [Hfresh Hnd]. cbn [fst] in Hfresh.
  cbn [pop_changes fold_left].
  assert (p ∈ paths) as Hp by (apply Hpaths; by left).
  assert (p <> EmptyString) as Hpne by (rewrite Forall_forall in Hne; by apply Hne).
  destruct (no_clash_no_write_error initial work paths p Hfree Hwork Hp Hpne)
    as [Hwrite Hunlink].
  assert (pop_error initial work (p, fileChange) = None) as ->.
  { unfold pop_error. cbn [fst snd]. destruct fileChange as [content| |changeSet];
      [done | done |].
    unfold file_exists. rewrite bool_decide_eq_true_2; [done|].
    apply (Hops p changeSet). by left. }
  apply IH; [done | | |].
  - intros other Hother. apply Hpaths. by right.
  - intros other changeSet Hin.
    assert (other <> p) as Hother.
    { intros ->. apply Hfresh. apply list_elem_of_fmap. by exists (p, Ops changeSet). }
    rewrite pop_change_other by done. apply (Hops other changeSet). by right.
  - intros q Hq. destruct (decide (q = p)) as [->|Hq']; [by right|].
    rewrite pop_change_other in Hq by done. by apply Hwork.
Qed.


